(** * SAANS data capture: the record model of [src/App.jsx]

    A shallow embedding of the single React component of the repository:
    the schema ([FIELD_LABELS], [toKey], [FIELD_KEYS]), the component state
    ([form], [records], [editingIndex]) with its event handlers, the Excel
    import ([importExcel]) and the Excel export ([downloadExcel]).

    Conventions of the embedding.
    - A JavaScript string is the list of its UTF-16 code units ([jsstring]).
      String literals of the source are written as Rocq strings and decoded
      from UTF-8 by [js].
    - [toLowerCase] is the engine's: Unicode's default lower-casing of the
      code points with the Final_Sigma rule, over the code points that
      Unicode 14.0.0 assigns (a code point assigned later is left alone).
    - A plain object is the list of its own enumerable properties in
      [Object.keys] order.  No property name used by the component is a
      canonical array index, so that order is insertion order.
    - An array is a list of slots; a slot is a hole, [undefined] or an
      element, since [filter], [map] and spread treat the three differently.
      Positions and lengths are those of arrays, below 2^32 - 1; named
      properties of arrays are not part of the model.
    - Rows handed over by the spreadsheet codec are plain objects holding
      cells.  [row.hasOwnProperty] is looked up on the row like any other
      property, so a row with a column of that name throws when the
      component calls it.
    - [alert] and [XLSX.writeFile] are recorded as effects; the answer to
      [confirm] is an input of the handler.  [localStorage] is not modelled. *)

From Stdlib Require Import List NArith ZArith Bool Ascii String Lia.
From Stdlib Require Import DecimalString.
Import ListNotations.

Set Implicit Arguments.

(* ================================================================== *)
(** ** Strings *)

Module JsString.

(** One UTF-16 code unit. *)
Definition codeunit := N.
Definition jsstring := list codeunit.

Local Open Scope N_scope.

(** The code units of one code point: itself in the basic plane, a
    surrogate pair above it. *)
Definition utf16 (cp : N) : list codeunit :=
  if cp <? 65536 then [cp]
  else [55296 + (cp - 65536) / 1024; 56320 + (cp - 65536) mod 1024].

(** UTF-8 to UTF-16; a truncated sequence decodes to U+FFFD. *)
Fixpoint decodeUtf8 (bs : list N) : jsstring :=
  match bs with
  | [] => []
  | b0 :: t0 =>
    if b0 <? 128 then b0 :: decodeUtf8 t0
    else
      match t0 with
      | [] => [65533]
      | b1 :: t1 =>
        if b0 <? 224 then ((b0 - 192) * 64 + (b1 - 128)) :: decodeUtf8 t1
        else
          match t1 with
          | [] => [65533]
          | b2 :: t2 =>
            if b0 <? 240
            then ((b0 - 224) * 4096 + (b1 - 128) * 64 + (b2 - 128))
                   :: decodeUtf8 t2
            else
              match t2 with
              | [] => [65533]
              | b3 :: t3 =>
                utf16 ((b0 - 240) * 262144 + (b1 - 128) * 4096
                       + (b2 - 128) * 64 + (b3 - 128))
                  ++ decodeUtf8 t3
              end
          end
      end
  end.

(** A literal of the source as a JavaScript string. *)
Definition js (s : string) : jsstring :=
  decodeUtf8 (map N_of_ascii (list_ascii_of_string s)).

(** [a === b] on strings. *)
Fixpoint streq (a b : jsstring) : bool :=
  match a, b with
  | [], [] => true
  | x :: a', y :: b' => (x =? y) && streq a' b'
  | _, _ => false
  end.

(** A string is truthy when it is not empty. *)
Definition truthy (s : jsstring) : bool :=
  match s with [] => false | _ :: _ => true end.

Definition isUpper (c : codeunit) : bool := (65 <=? c) && (c <=? 90).
Definition isLower (c : codeunit) : bool := (97 <=? c) && (c <=? 122).
Definition isDigit (c : codeunit) : bool := (48 <=? c) && (c <=? 57).

(** *** Code points *)

Definition isHighSurrogate (c : codeunit) : bool :=
  (55296 <=? c) && (c <=? 56319).
Definition isLowSurrogate (c : codeunit) : bool :=
  (56320 <=? c) && (c <=? 57343).

(** The code points of a string: a high surrogate followed by a low one
    is one code point, any other unit stands for itself. *)
Fixpoint codePoints (s : jsstring) : list N :=
  match s with
  | [] => []
  | h :: t =>
    if isHighSurrogate h then
      match t with
      | l :: t' =>
        if isLowSurrogate l
        then (65536 + (h - 55296) * 1024 + (l - 56320)) :: codePoints t'
        else h :: codePoints t
      | [] => [h]
      end
    else h :: codePoints t
  end.

Definition codeUnits (cps : list N) : jsstring := flat_map utf16 cps.

(** *** Lower-casing

    [String.prototype.toLowerCase] is the Unicode default lower-casing of
    the code points, with the unconditional and the Final_Sigma rules of
    SpecialCasing and no locale.  The three tables below are those of
    Unicode 14.0.0 (the code points above 127 only; the ASCII letters are
    written out in [lowerPoint]). *)

(** Simple lower-case mappings: [(first, last, step, target)] maps every
    [step]-th code point [first + k] up to [last] to [target + k]. *)
Definition lowerRuns : list (N * N * N * N) := [
  (192, 214, 1, 224); (216, 222, 1, 248); (256, 302, 2, 257); (306, 310, 2,
  307); (313, 327, 2, 314); (330, 374, 2, 331); (376, 376, 1, 255); (377,
  381, 2, 378); (385, 385, 1, 595); (386, 388, 2, 387); (390, 390, 1, 596);
  (391, 391, 1, 392); (393, 394, 1, 598); (395, 395, 1, 396); (398, 398, 1,
  477); (399, 399, 1, 601); (400, 400, 1, 603); (401, 401, 1, 402); (403,
  403, 1, 608); (404, 404, 1, 611); (406, 406, 1, 617); (407, 407, 1, 616);
  (408, 408, 1, 409); (412, 412, 1, 623); (413, 413, 1, 626); (415, 415, 1,
  629); (416, 420, 2, 417); (422, 422, 1, 640); (423, 423, 1, 424); (425,
  425, 1, 643); (428, 428, 1, 429); (430, 430, 1, 648); (431, 431, 1, 432);
  (433, 434, 1, 650); (435, 437, 2, 436); (439, 439, 1, 658); (440, 440, 1,
  441); (444, 444, 1, 445); (452, 452, 1, 454); (453, 453, 1, 454); (455,
  455, 1, 457); (456, 456, 1, 457); (458, 458, 1, 460); (459, 475, 2, 460);
  (478, 494, 2, 479); (497, 497, 1, 499); (498, 500, 2, 499); (502, 502, 1,
  405); (503, 503, 1, 447); (504, 542, 2, 505); (544, 544, 1, 414); (546,
  562, 2, 547); (570, 570, 1, 11365); (571, 571, 1, 572); (573, 573, 1,
  410); (574, 574, 1, 11366); (577, 577, 1, 578); (579, 579, 1, 384); (580,
  580, 1, 649); (581, 581, 1, 652); (582, 590, 2, 583); (880, 882, 2, 881);
  (886, 886, 1, 887); (895, 895, 1, 1011); (902, 902, 1, 940); (904, 906, 1,
  941); (908, 908, 1, 972); (910, 911, 1, 973); (913, 929, 1, 945); (932,
  939, 1, 964); (975, 975, 1, 983); (984, 1006, 2, 985); (1012, 1012, 1,
  952); (1015, 1015, 1, 1016); (1017, 1017, 1, 1010); (1018, 1018, 1, 1019);
  (1021, 1023, 1, 891); (1024, 1039, 1, 1104); (1040, 1071, 1, 1072); (1120,
  1152, 2, 1121); (1162, 1214, 2, 1163); (1216, 1216, 1, 1231); (1217, 1229,
  2, 1218); (1232, 1326, 2, 1233); (1329, 1366, 1, 1377); (4256, 4293, 1,
  11520); (4295, 4295, 1, 11559); (4301, 4301, 1, 11565); (5024, 5103, 1,
  43888); (5104, 5109, 1, 5112); (7312, 7354, 1, 4304); (7357, 7359, 1,
  4349); (7680, 7828, 2, 7681); (7838, 7838, 1, 223); (7840, 7934, 2, 7841);
  (7944, 7951, 1, 7936); (7960, 7965, 1, 7952); (7976, 7983, 1, 7968);
  (7992, 7999, 1, 7984); (8008, 8013, 1, 8000); (8025, 8031, 2, 8017);
  (8040, 8047, 1, 8032); (8072, 8079, 1, 8064); (8088, 8095, 1, 8080);
  (8104, 8111, 1, 8096); (8120, 8121, 1, 8112); (8122, 8123, 1, 8048);
  (8124, 8124, 1, 8115); (8136, 8139, 1, 8050); (8140, 8140, 1, 8131);
  (8152, 8153, 1, 8144); (8154, 8155, 1, 8054); (8168, 8169, 1, 8160);
  (8170, 8171, 1, 8058); (8172, 8172, 1, 8165); (8184, 8185, 1, 8056);
  (8186, 8187, 1, 8060); (8188, 8188, 1, 8179); (8486, 8486, 1, 969); (8490,
  8490, 1, 107); (8491, 8491, 1, 229); (8498, 8498, 1, 8526); (8544, 8559,
  1, 8560); (8579, 8579, 1, 8580); (9398, 9423, 1, 9424); (11264, 11311, 1,
  11312); (11360, 11360, 1, 11361); (11362, 11362, 1, 619); (11363, 11363,
  1, 7549); (11364, 11364, 1, 637); (11367, 11371, 2, 11368); (11373, 11373,
  1, 593); (11374, 11374, 1, 625); (11375, 11375, 1, 592); (11376, 11376, 1,
  594); (11378, 11378, 1, 11379); (11381, 11381, 1, 11382); (11390, 11391,
  1, 575); (11392, 11490, 2, 11393); (11499, 11501, 2, 11500); (11506,
  11506, 1, 11507); (42560, 42604, 2, 42561); (42624, 42650, 2, 42625);
  (42786, 42798, 2, 42787); (42802, 42862, 2, 42803); (42873, 42875, 2,
  42874); (42877, 42877, 1, 7545); (42878, 42886, 2, 42879); (42891, 42891,
  1, 42892); (42893, 42893, 1, 613); (42896, 42898, 2, 42897); (42902,
  42920, 2, 42903); (42922, 42922, 1, 614); (42923, 42923, 1, 604); (42924,
  42924, 1, 609); (42925, 42925, 1, 620); (42926, 42926, 1, 618); (42928,
  42928, 1, 670); (42929, 42929, 1, 647); (42930, 42930, 1, 669); (42931,
  42931, 1, 43859); (42932, 42946, 2, 42933); (42948, 42948, 1, 42900);
  (42949, 42949, 1, 642); (42950, 42950, 1, 7566); (42951, 42953, 2, 42952);
  (42960, 42960, 1, 42961); (42966, 42968, 2, 42967); (42997, 42997, 1,
  42998); (65313, 65338, 1, 65345); (66560, 66599, 1, 66600); (66736, 66771,
  1, 66776); (66928, 66938, 1, 66967); (66940, 66954, 1, 66979); (66956,
  66962, 1, 66995); (66964, 66965, 1, 67003); (68736, 68786, 1, 68800);
  (71840, 71871, 1, 71872); (93760, 93791, 1, 93792); (125184, 125217, 1,
  125218)
].

(** Cased code points that are not case-ignorable. *)
Definition casedRanges : list (N * N) := [
  (65, 90); (97, 122); (170, 170); (181, 181); (186, 186); (192, 214); (216,
  246); (248, 442); (444, 447); (452, 659); (661, 687); (880, 883); (886,
  887); (891, 893); (895, 895); (902, 902); (904, 906); (908, 908); (910,
  929); (931, 1013); (1015, 1153); (1162, 1327); (1329, 1366); (1376, 1416);
  (4256, 4293); (4295, 4295); (4301, 4301); (4304, 4346); (4349, 4351);
  (5024, 5109); (5112, 5117); (7296, 7304); (7312, 7354); (7357, 7359);
  (7424, 7467); (7531, 7543); (7545, 7578); (7680, 7957); (7960, 7965);
  (7968, 8005); (8008, 8013); (8016, 8023); (8025, 8025); (8027, 8027);
  (8029, 8029); (8031, 8061); (8064, 8116); (8118, 8124); (8126, 8126);
  (8130, 8132); (8134, 8140); (8144, 8147); (8150, 8155); (8160, 8172);
  (8178, 8180); (8182, 8188); (8450, 8450); (8455, 8455); (8458, 8467);
  (8469, 8469); (8473, 8477); (8484, 8484); (8486, 8486); (8488, 8488);
  (8490, 8493); (8495, 8500); (8505, 8505); (8508, 8511); (8517, 8521);
  (8526, 8526); (8544, 8575); (8579, 8580); (9398, 9449); (11264, 11387);
  (11390, 11492); (11499, 11502); (11506, 11507); (11520, 11557); (11559,
  11559); (11565, 11565); (42560, 42605); (42624, 42651); (42786, 42863);
  (42865, 42887); (42891, 42894); (42896, 42954); (42960, 42961); (42963,
  42963); (42965, 42969); (42997, 42998); (43002, 43002); (43824, 43866);
  (43872, 43880); (43888, 43967); (64256, 64262); (64275, 64279); (65313,
  65338); (65345, 65370); (66560, 66639); (66736, 66771); (66776, 66811);
  (66928, 66938); (66940, 66954); (66956, 66962); (66964, 66965); (66967,
  66977); (66979, 66993); (66995, 67001); (67003, 67004); (68736, 68786);
  (68800, 68850); (71840, 71903); (93760, 93823); (119808, 119892); (119894,
  119964); (119966, 119967); (119970, 119970); (119973, 119974); (119977,
  119980); (119982, 119993); (119995, 119995); (119997, 120003); (120005,
  120069); (120071, 120074); (120077, 120084); (120086, 120092); (120094,
  120121); (120123, 120126); (120128, 120132); (120134, 120134); (120138,
  120144); (120146, 120485); (120488, 120512); (120514, 120538); (120540,
  120570); (120572, 120596); (120598, 120628); (120630, 120654); (120656,
  120686); (120688, 120712); (120714, 120744); (120746, 120770); (120772,
  120779); (122624, 122633); (122635, 122654); (125184, 125251); (127280,
  127305); (127312, 127337); (127344, 127369)
].

(** Case-ignorable code points. *)
Definition caseIgnorableRanges : list (N * N) := [
  (39, 39); (46, 46); (58, 58); (94, 94); (96, 96); (168, 168); (173, 173);
  (175, 175); (180, 180); (183, 184); (688, 879); (884, 885); (890, 890);
  (900, 901); (903, 903); (1155, 1161); (1369, 1369); (1375, 1375); (1425,
  1469); (1471, 1471); (1473, 1474); (1476, 1477); (1479, 1479); (1524,
  1524); (1536, 1541); (1552, 1562); (1564, 1564); (1600, 1600); (1611,
  1631); (1648, 1648); (1750, 1757); (1759, 1768); (1770, 1773); (1807,
  1807); (1809, 1809); (1840, 1866); (1958, 1968); (2027, 2037); (2042,
  2042); (2045, 2045); (2070, 2093); (2137, 2139); (2184, 2184); (2192,
  2193); (2200, 2207); (2249, 2306); (2362, 2362); (2364, 2364); (2369,
  2376); (2381, 2381); (2385, 2391); (2402, 2403); (2417, 2417); (2433,
  2433); (2492, 2492); (2497, 2500); (2509, 2509); (2530, 2531); (2558,
  2558); (2561, 2562); (2620, 2620); (2625, 2626); (2631, 2632); (2635,
  2637); (2641, 2641); (2672, 2673); (2677, 2677); (2689, 2690); (2748,
  2748); (2753, 2757); (2759, 2760); (2765, 2765); (2786, 2787); (2810,
  2815); (2817, 2817); (2876, 2876); (2879, 2879); (2881, 2884); (2893,
  2893); (2901, 2902); (2914, 2915); (2946, 2946); (3008, 3008); (3021,
  3021); (3072, 3072); (3076, 3076); (3132, 3132); (3134, 3136); (3142,
  3144); (3146, 3149); (3157, 3158); (3170, 3171); (3201, 3201); (3260,
  3260); (3263, 3263); (3270, 3270); (3276, 3277); (3298, 3299); (3328,
  3329); (3387, 3388); (3393, 3396); (3405, 3405); (3426, 3427); (3457,
  3457); (3530, 3530); (3538, 3540); (3542, 3542); (3633, 3633); (3636,
  3642); (3654, 3662); (3761, 3761); (3764, 3772); (3782, 3782); (3784,
  3789); (3864, 3865); (3893, 3893); (3895, 3895); (3897, 3897); (3953,
  3966); (3968, 3972); (3974, 3975); (3981, 3991); (3993, 4028); (4038,
  4038); (4141, 4144); (4146, 4151); (4153, 4154); (4157, 4158); (4184,
  4185); (4190, 4192); (4209, 4212); (4226, 4226); (4229, 4230); (4237,
  4237); (4253, 4253); (4348, 4348); (4957, 4959); (5906, 5908); (5938,
  5939); (5970, 5971); (6002, 6003); (6068, 6069); (6071, 6077); (6086,
  6086); (6089, 6099); (6103, 6103); (6109, 6109); (6155, 6159); (6211,
  6211); (6277, 6278); (6313, 6313); (6432, 6434); (6439, 6440); (6450,
  6450); (6457, 6459); (6679, 6680); (6683, 6683); (6742, 6742); (6744,
  6750); (6752, 6752); (6754, 6754); (6757, 6764); (6771, 6780); (6783,
  6783); (6823, 6823); (6832, 6862); (6912, 6915); (6964, 6964); (6966,
  6970); (6972, 6972); (6978, 6978); (7019, 7027); (7040, 7041); (7074,
  7077); (7080, 7081); (7083, 7085); (7142, 7142); (7144, 7145); (7149,
  7149); (7151, 7153); (7212, 7219); (7222, 7223); (7288, 7293); (7376,
  7378); (7380, 7392); (7394, 7400); (7405, 7405); (7412, 7412); (7416,
  7417); (7468, 7530); (7544, 7544); (7579, 7679); (8125, 8125); (8127,
  8129); (8141, 8143); (8157, 8159); (8173, 8175); (8189, 8190); (8203,
  8207); (8216, 8217); (8228, 8228); (8231, 8231); (8234, 8238); (8288,
  8292); (8294, 8303); (8305, 8305); (8319, 8319); (8336, 8348); (8400,
  8432); (11388, 11389); (11503, 11505); (11631, 11631); (11647, 11647);
  (11744, 11775); (11823, 11823); (12293, 12293); (12330, 12333); (12337,
  12341); (12347, 12347); (12441, 12446); (12540, 12542); (40981, 40981);
  (42232, 42237); (42508, 42508); (42607, 42610); (42612, 42621); (42623,
  42623); (42652, 42655); (42736, 42737); (42752, 42785); (42864, 42864);
  (42888, 42890); (42994, 42996); (43000, 43001); (43010, 43010); (43014,
  43014); (43019, 43019); (43045, 43046); (43052, 43052); (43204, 43205);
  (43232, 43249); (43263, 43263); (43302, 43309); (43335, 43345); (43392,
  43394); (43443, 43443); (43446, 43449); (43452, 43453); (43471, 43471);
  (43493, 43494); (43561, 43566); (43569, 43570); (43573, 43574); (43587,
  43587); (43596, 43596); (43632, 43632); (43644, 43644); (43696, 43696);
  (43698, 43700); (43703, 43704); (43710, 43711); (43713, 43713); (43741,
  43741); (43756, 43757); (43763, 43764); (43766, 43766); (43867, 43871);
  (43881, 43883); (44005, 44005); (44008, 44008); (44013, 44013); (64286,
  64286); (64434, 64450); (65024, 65039); (65043, 65043); (65056, 65071);
  (65106, 65106); (65109, 65109); (65279, 65279); (65287, 65287); (65294,
  65294); (65306, 65306); (65342, 65342); (65344, 65344); (65392, 65392);
  (65438, 65439); (65507, 65507); (65529, 65531); (66045, 66045); (66272,
  66272); (66422, 66426); (67456, 67461); (67463, 67504); (67506, 67514);
  (68097, 68099); (68101, 68102); (68108, 68111); (68152, 68154); (68159,
  68159); (68325, 68326); (68900, 68903); (69291, 69292); (69446, 69456);
  (69506, 69509); (69633, 69633); (69688, 69702); (69744, 69744); (69747,
  69748); (69759, 69761); (69811, 69814); (69817, 69818); (69821, 69821);
  (69826, 69826); (69837, 69837); (69888, 69890); (69927, 69931); (69933,
  69940); (70003, 70003); (70016, 70017); (70070, 70078); (70089, 70092);
  (70095, 70095); (70191, 70193); (70196, 70196); (70198, 70199); (70206,
  70206); (70367, 70367); (70371, 70378); (70400, 70401); (70459, 70460);
  (70464, 70464); (70502, 70508); (70512, 70516); (70712, 70719); (70722,
  70724); (70726, 70726); (70750, 70750); (70835, 70840); (70842, 70842);
  (70847, 70848); (70850, 70851); (71090, 71093); (71100, 71101); (71103,
  71104); (71132, 71133); (71219, 71226); (71229, 71229); (71231, 71232);
  (71339, 71339); (71341, 71341); (71344, 71349); (71351, 71351); (71453,
  71455); (71458, 71461); (71463, 71467); (71727, 71735); (71737, 71738);
  (71995, 71996); (71998, 71998); (72003, 72003); (72148, 72151); (72154,
  72155); (72160, 72160); (72193, 72202); (72243, 72248); (72251, 72254);
  (72263, 72263); (72273, 72278); (72281, 72283); (72330, 72342); (72344,
  72345); (72752, 72758); (72760, 72765); (72767, 72767); (72850, 72871);
  (72874, 72880); (72882, 72883); (72885, 72886); (73009, 73014); (73018,
  73018); (73020, 73021); (73023, 73029); (73031, 73031); (73104, 73105);
  (73109, 73109); (73111, 73111); (73459, 73460); (78896, 78904); (92912,
  92916); (92976, 92982); (92992, 92995); (94031, 94031); (94095, 94111);
  (94176, 94177); (94179, 94180); (110576, 110579); (110581, 110587);
  (110589, 110590); (113821, 113822); (113824, 113827); (118528, 118573);
  (118576, 118598); (119143, 119145); (119155, 119170); (119173, 119179);
  (119210, 119213); (119362, 119364); (121344, 121398); (121403, 121452);
  (121461, 121461); (121476, 121476); (121499, 121503); (121505, 121519);
  (122880, 122886); (122888, 122904); (122907, 122913); (122915, 122916);
  (122918, 122922); (123184, 123197); (123566, 123566); (123628, 123631);
  (125136, 125142); (125252, 125259); (127995, 127999); (917505, 917505);
  (917536, 917631); (917760, 917999)
].

Definition inRanges (c : N) (l : list (N * N)) : bool :=
  existsb (fun r => (fst r <=? c) && (c <=? snd r)) l.

Definition isCased (c : N) : bool := inRanges c casedRanges.
Definition isCaseIgnorable (c : N) : bool := inRanges c caseIgnorableRanges.

(** The simple mapping of one code point. *)
Definition lowerPoint (c : N) : N :=
  if c <? 128 then (if isUpper c then c + 32 else c)
  else
    match find (fun r => match r with
                         | (lo, hi, step, _) =>
                           (lo <=? c) && (c <=? hi) && ((c - lo) mod step =? 0)
                         end) lowerRuns with
    | Some (lo, _, _, target) => target + (c - lo)
    | None => c
    end.

(** Going away from a capital sigma, over case-ignorable code points: is
    the first other code point a cased one? *)
Fixpoint nextIsCased (l : list N) : bool :=
  match l with
  | [] => false
  | c :: t => if isCaseIgnorable c then nextIsCased t else isCased c
  end.

(** The lower-casing of [c] between [before] (nearest first) and
    [after]: capital sigma becomes final sigma after a cased letter that
    no cased letter follows; capital I with dot above becomes i and a
    combining dot; the rest follows the simple mapping. *)
Definition lowerAt (before : list N) (c : N) (after : list N) : list N :=
  if c =? 931 then
    (if nextIsCased before && negb (nextIsCased after) then [962] else [963])
  else if c =? 304 then [105; 775]
  else [lowerPoint c].

Fixpoint lowerPoints (before : list N) (s : list N) : list N :=
  match s with
  | [] => []
  | c :: t => lowerAt before c t ++ lowerPoints (c :: before) t
  end.

(** [s.toLowerCase()]. *)
Definition toLowerCase (s : jsstring) : jsstring :=
  codeUnits (lowerPoints [] (codePoints s)).

(** ECMAScript's WhiteSpace and LineTerminator code units, the ones
    [trim] removes. *)
Definition isWhiteSpace (c : codeunit) : bool :=
  ((9 <=? c) && (c <=? 13)) || (c =? 32) || (c =? 160) || (c =? 5760)
  || ((8192 <=? c) && (c <=? 8202)) || (c =? 8232) || (c =? 8233)
  || (c =? 8239) || (c =? 8287) || (c =? 12288) || (c =? 65279).

Fixpoint dropWhile (p : codeunit -> bool) (s : jsstring) : jsstring :=
  match s with
  | [] => []
  | c :: t => if p c then dropWhile p t else s
  end.

(** Drops the longest suffix whose units all satisfy [p]. *)
Fixpoint dropWhileEnd (p : codeunit -> bool) (s : jsstring) : jsstring :=
  match s with
  | [] => []
  | c :: t =>
    match dropWhileEnd p t with
    | [] => if p c then [] else [c]
    | t' => c :: t'
    end
  end.

(** [s.trim()]. *)
Definition trim (s : jsstring) : jsstring :=
  dropWhileEnd isWhiteSpace (dropWhile isWhiteSpace s).

(** [n.toString()] for a non-negative integer. *)
Definition ofNat (n : nat) : jsstring :=
  js (NilEmpty.string_of_uint (Nat.to_uint n)).

End JsString.
Import JsString.

(* ================================================================== *)
(** ** Schema registry: [FIELD_LABELS], [toKey], [FIELD_KEYS] *)

Local Open Scope string_scope.

Definition FIELD_LABELS : list jsstring := map js [
  "Month ……………";
  "Name of the Block";
  "Name of Nodal Officer Incharge of SAANS 2025-26";
  "Whether SAANS 2025-26 was inaugurated at District Level?";
  "Number of Blocks that inaugurated SAANS 2025-26?";
  "No. of ASHAs trained on home visits for SAANS?";
  "No. of ANMS trained on SAANS?";
  "No. of Nursing Officers in PHCs, CHCs, Hospitals trained on SAANS?";
  "No. of Doctors trained on SAANS?";
  "No. of ASHAs that did house-to-house visits of under-five children?";
  "No. of under-five-children assessed by ASHAs for cough/difficulty in breathing/fast breathing?";
  "No. of under-five-children having symptoms and signs assessed by ANM/Staff Nurse/Medical Officer?";
  "No. of under-five-children administered pre-referral antibiotics/ORS/other medicines by ANM/Staff Nurse?";
  "No. of under-five-children referred to health facility by ASHA/ANM?";
  "No. of houses with at least 1 of the risk factors identified?";
  "No. of homes where counseling was done using M4M (Mother4Mother) approach?";
  "No. of under-five-children treated with cough syrup/ORS at community level?";
  "No. of under-five-children treated with Pneumonia treatment at community/PHC level?";
  "No. of under-five-children treated with Severe Pneumonia managed as per protocol?";
  "No. of under-five-children administered medications (antibiotics/ORS/other) as per guidelines?";
  "No. of Skill Station functional against approval";
  "Number of infants given PCV-1 vs number of infants eligible";
  "Number of infants given PCV-Booster vs number of infants eligible"
].

Local Close Scope string_scope.

Module Key.

Local Open Scope N_scope.

(** The separator ["_"]. *)
Definition sep : codeunit := 95.

Definition isSep (c : codeunit) : bool := c =? sep.

(** The class [[a-z0-9]]. *)
Definition isAlnum (c : codeunit) : bool := isLower c || isDigit c.

(** [.replace(/[^a-z0-9]+/g, "_")]: every maximal run of units outside
    [[a-z0-9]] becomes one separator.  [inRun] tells that the previous
    unit was part of the run being replaced. *)
Fixpoint replaceRuns (inRun : bool) (s : jsstring) : jsstring :=
  match s with
  | [] => []
  | c :: t =>
    if isAlnum c then c :: replaceRuns false t
    else if inRun then replaceRuns true t
    else sep :: replaceRuns true t
  end.

(** [.replace(/^_+|_+$/g, "")]: the leading run of separators and the
    trailing one are removed. *)
Definition stripSeps (s : jsstring) : jsstring :=
  dropWhileEnd isSep (dropWhile isSep s).

End Key.

(** [toKey]: machine keys from labels. *)
Definition toKey (label : jsstring) : jsstring :=
  Key.stripSeps (Key.replaceRuns false (toLowerCase label)).

Definition FIELD_KEYS : list jsstring := map toKey FIELD_LABELS.

(* ================================================================== *)
(** ** Values and plain objects *)

(** What a property of a record or of an imported row may hold.  The
    component copies values and never inspects them; a numeric cell is
    stood for by an integer. *)
Inductive value : Type :=
| VUndefined
| VString (s : jsstring)
| VNumber (n : Z)
| VBoolean (b : bool).

Module JsObject.

(** Own enumerable properties, in [Object.keys] order. *)
Definition obj := list (jsstring * value).

(** [Object.keys(o)]. *)
Definition keys (o : obj) : list jsstring := map fst o.

(** [o.hasOwnProperty(k)]. *)
Definition hasOwnProperty (o : obj) (k : jsstring) : bool :=
  existsb (fun e => streq (fst e) k) o.

(** [o[k]]; an absent property reads as [undefined]. *)
Fixpoint get (o : obj) (k : jsstring) : value :=
  match o with
  | [] => VUndefined
  | (k', v) :: rest => if streq k' k then v else get rest k
  end.

(** [o[k] = v]: an existing property keeps its place, a new one goes
    last. *)
Fixpoint set (o : obj) (k : jsstring) (v : value) : obj :=
  match o with
  | [] => [(k, v)]
  | (k', v') :: rest =>
    if streq k' k then (k', v) :: rest else (k', v') :: set rest k v
  end.

(** [{ ...base, ...src }] for an object literal that starts as [base]. *)
Definition spreadInto (base src : obj) : obj :=
  fold_left (fun acc e => set acc (fst e) (snd e)) src base.

(** [{ ...o }]. *)
Definition spread (o : obj) : obj := spreadInto [] o.

(** [{ ...o }] when [o] may be [undefined], which spreads to nothing. *)
Definition spreadOpt (o : option obj) : obj :=
  match o with Some r => spread r | None => [] end.

End JsObject.
Import JsObject.

(** A record of the collection and a row of a sheet are plain objects. *)
Definition record := obj.
Definition row := obj.

(* ================================================================== *)
(** ** Arrays *)

Module JsArray.

(** A position of an array: nothing there, [undefined], or an element. *)
Inductive slot (A : Type) : Type :=
| Hole
| Undef
| Elem (a : A).
Arguments Hole {A}.
Arguments Undef {A}.

Definition array (A : Type) := list (slot A).

(** An array all of whose positions hold elements. *)
Definition dense {A} (l : list A) : array A := map (@Elem A) l.

(** What a callback or a read sees at a slot that is not a record. *)
Definition read {A} (s : slot A) : option A :=
  match s with Elem a => Some a | _ => None end.

(** Storing a value that may be [undefined]. *)
Definition store {A} (v : option A) : slot A :=
  match v with Some a => Elem a | None => Undef end.

(** [a[i]]: [undefined] at a hole, below zero and past the end. *)
Definition get {A} (a : array A) (i : Z) : option A :=
  if (i <? 0)%Z then None
  else match nth_error a (Z.to_nat i) with
       | Some s => read s
       | None => None
       end.

(** [[...a]]: the iterator yields [undefined] at a hole. *)
Definition spread {A} (a : array A) : array A :=
  map (fun s => match s with Hole => Undef | _ => s end) a.

(** [a[i] = v] for an array index [i], that is [0 <= i < 2^32 - 1]: past
    the end the array grows and the positions in between stay holes. *)
Fixpoint setNat {A} (a : array A) (i : nat) (s : slot A) : array A :=
  match i, a with
  | O, [] => [s]
  | O, _ :: t => s :: t
  | S i', [] => Hole :: setNat [] i' s
  | S i', x :: t => x :: setNat t i' s
  end.

Definition set {A} (a : array A) (i : Z) (v : option A) : array A :=
  setNat a (Z.to_nat i) (store v).

(** [a.filter((x, idx) => p x idx)]: holes are skipped and do not reach
    the result; [idx] is the position in [a]. *)
Fixpoint filterFrom {A} (p : option A -> Z -> bool) (idx : Z) (a : array A)
  : array A :=
  match a with
  | [] => []
  | Hole :: t => filterFrom p (idx + 1) t
  | s :: t =>
    if p (read s) idx then s :: filterFrom p (idx + 1) t
    else filterFrom p (idx + 1) t
  end.

Definition filter {A} (p : option A -> Z -> bool) (a : array A) : array A :=
  filterFrom p 0 a.

End JsArray.
Import JsArray.

(** [l.forEach((x, idx) => ...)] over a list without holes, threading the
    object the callback mutates. *)
Fixpoint forEachFrom {A T : Type} (f : A -> nat -> T -> T) (idx : nat)
    (l : list A) (s : T) : T :=
  match l with
  | [] => s
  | x :: t => forEachFrom f (S idx) t (f x idx s)
  end.

Definition forEach {A T : Type} (f : A -> nat -> T -> T) (l : list A) (s : T)
  : T := forEachFrom f 0 l s.

(** [FIELD_KEYS[idx]] and [FIELD_LABELS[idx]] used as property names: an
    index past the end would read [undefined], whose name is "undefined". *)
Definition keyAt (idx : nat) : jsstring := nth idx FIELD_KEYS (js "undefined").
Definition labelAt (idx : nat) : jsstring :=
  nth idx FIELD_LABELS (js "undefined").

(* ================================================================== *)
(** ** Exceptions and effects *)

Inductive exn : Type :=
| TypeError.

Inductive outcome (A : Type) : Type :=
| Returned (a : A)
| Threw (e : exn).
Arguments Threw {A}.

Definition bind {A B} (m : outcome A) (k : A -> outcome B) : outcome B :=
  match m with
  | Returned a => k a
  | Threw e => Threw e
  end.

Notation "x <- m ;; k" := (bind m (fun x => k))
  (at level 61, m at next level, right associativity).

Inductive effect : Type :=
| Alert (msg : jsstring)
| WriteFile (rows : array row) (sheetName fileName : jsstring).

(* ================================================================== *)
(** ** The component *)

(** [FIELD_KEYS.reduce((acc, k) => ({ ...acc, [k]: "" }), {})]. *)
Definition emptyRecord : record :=
  fold_left (fun acc k => JsObject.set (JsObject.spread acc) k (VString []))
            FIELD_KEYS [].

(** The three pieces of state; [form] is [undefined] after [handleEdit]
    on a position that holds no record. *)
Record state : Type := mkState {
  form : option record;
  records : array record;
  editingIndex : Z
}.

Definition initialState : state :=
  {| form := Some (JsObject.spread emptyRecord);
     records := [];
     editingIndex := (-1)%Z |}.

(** [handleChange]: [name] and [value] are the target's. *)
Definition handleChange (name value : jsstring) (st : state) : state :=
  {| form := Some (JsObject.set (spreadOpt (form st)) name (VString value));
     records := records st;
     editingIndex := editingIndex st |}.

(** [handleSubmit]. *)
Definition handleSubmit (st : state) : state :=
  if (0 <=? editingIndex st)%Z then
    let updated := JsArray.spread (records st) in
    let updated := JsArray.set updated (editingIndex st) (form st) in
    {| form := Some (JsObject.spread emptyRecord);
       records := updated;
       editingIndex := (-1)%Z |}
  else
    {| form := Some (JsObject.spread emptyRecord);
       records := JsArray.spread (records st) ++ [store (form st)];
       editingIndex := editingIndex st |}.

(** [handleEdit]. *)
Definition handleEdit (i : Z) (st : state) : state :=
  {| form := JsArray.get (records st) i;
     records := records st;
     editingIndex := i |}.

(** [handleDelete]; [confirmed] is what [confirm] answered. *)
Definition handleDelete (i : Z) (confirmed : bool) (st : state) : state :=
  if negb confirmed then st
  else
    {| form := form st;
       records := JsArray.filter (fun _ idx => negb (idx =? i)%Z) (records st);
       editingIndex := editingIndex st |}.

(** The "Reset Form" button. *)
Definition resetForm (st : state) : state :=
  {| form := Some (JsObject.spread emptyRecord);
     records := records st;
     editingIndex := (-1)%Z |}.

(** [clearAll]. *)
Definition clearAll (confirmed : bool) (st : state) : state :=
  if negb confirmed then st
  else {| form := form st; records := []; editingIndex := editingIndex st |}.

(** *** Export *)

(** [rec[k]] where [rec] itself may be [undefined]. *)
Definition member (rec : option record) (k : jsstring) : outcome value :=
  match rec with
  | Some r => Returned (JsObject.get r k)
  | None => Threw TypeError
  end.

(** The callback of [records.map] in [downloadExcel]: a fresh row filled
    by [FIELD_KEYS.forEach]. *)
Definition exportRow (rec : option record) : outcome row :=
  forEach (fun k idx acc =>
             r <- acc ;;
             v <- member rec k ;;
             Returned (JsObject.set r (labelAt idx) v))
          FIELD_KEYS (Returned []).

(** [a.map(f)] where [f] may throw: holes stay holes and are not
    visited. *)
Fixpoint mapArray {A B} (f : option A -> outcome B) (a : array A)
  : outcome (array B) :=
  match a with
  | [] => Returned []
  | Hole :: t => t' <- mapArray f t ;; Returned (Hole :: t')
  | s :: t => b <- f (read s) ;; t' <- mapArray f t ;; Returned (Elem b :: t')
  end.

(** [downloadExcel]: what it alerts or writes. *)
Definition downloadExcel (st : state) : outcome (list effect) :=
  if (List.length (records st) =? 0)%nat then
    Returned [Alert (js "No records to export")]
  else
    rows <- mapArray exportRow (records st) ;;
    Returned [WriteFile rows (js "SAANS_Data") (js "SAANS_Data.xlsx")].

(** *** Import *)

(** [o.hasOwnProperty(k)] as the component writes it: a method call on a
    row that the codec made.  A column headed "hasOwnProperty" gives the
    row an own property of that name; it holds a cell, and calling a cell
    throws. *)
Definition callHasOwnProperty (o : obj) (k : jsstring) : outcome bool :=
  if hasOwnProperty o (js "hasOwnProperty") then Threw TypeError
  else Returned (hasOwnProperty o k).

(** The comparison of the case-insensitive tier. *)
Definition sameHeader (label h : jsstring) : bool :=
  streq (trim (toLowerCase h)) (trim (toLowerCase label)).

(** The body of [FIELD_LABELS.forEach] in [importExcel]. *)
Definition resolveField (r : row) (label : jsstring) (idx : nat)
    (out : record) : outcome record :=
  byLabel <- callHasOwnProperty r label ;;
  if byLabel then
    Returned (JsObject.set out (keyAt idx) (JsObject.get r label))
  else
    byKey <- callHasOwnProperty r (keyAt idx) ;;
    if byKey then
      Returned (JsObject.set out (keyAt idx) (JsObject.get r (keyAt idx)))
    else
      match find (sameHeader label) (JsObject.keys r) with
      | Some matchKey =>
        if truthy matchKey
        then Returned (JsObject.set out (keyAt idx) (JsObject.get r matchKey))
        else Returned out
      | None => Returned out
      end.

(** The callback of [json.map] in [importExcel]; an exception of the
    inner [forEach] ends it. *)
Definition reconcileRow (r : row) : outcome record :=
  forEach (fun label idx acc => out <- acc ;; resolveField r label idx out)
          FIELD_LABELS (Returned (JsObject.spread emptyRecord)).

(** [l.map(f)] over a list without holes, where [f] may throw. *)
Fixpoint mapList {A B} (f : A -> outcome B) (l : list A) : outcome (list B) :=
  match l with
  | [] => Returned []
  | x :: t => b <- f x ;; t' <- mapList f t ;; Returned (b :: t')
  end.

(** [json.map(...)]: [json] is what the codec decoded, one object per
    row. *)
Definition reconcile (json : list row) : outcome (list record) :=
  mapList reconcileRow json.

(** The [onload] callback of [importExcel], from the decoded [json] on. *)
Definition importExcel (json : list row) (st : state)
  : outcome (state * list effect) :=
  if (List.length json =? 0)%nat then
    Returned (st, [Alert (js "No data found in the Excel file.")])
  else
    mapped <- reconcile json ;;
    Returned
      ({| form := form st;
          records := JsArray.spread (records st) ++ dense mapped;
          editingIndex := editingIndex st |},
       [Alert (js "Imported " ++ ofNat (List.length mapped) ++ js " rows.")]).

(** *** The component as a transition system *)

Inductive event : Type :=
| Change (name value : jsstring)
| Submit
| Edit (i : Z)
| Delete (i : Z) (confirmed : bool)
| Reset
| Clear (confirmed : bool)
| Download
| Import (json : list row).

(** One handler run: the next state and what it showed or wrote, or the
    exception that escaped it. *)
Definition handle (e : event) (st : state) : outcome (state * list effect) :=
  match e with
  | Change name value => Returned (handleChange name value st, [])
  | Submit => Returned (handleSubmit st, [])
  | Edit i => Returned (handleEdit i st, [])
  | Delete i confirmed => Returned (handleDelete i confirmed st, [])
  | Reset => Returned (resetForm st, [])
  | Clear confirmed => Returned (clearAll confirmed st, [])
  | Download => effs <- downloadExcel st ;; Returned (st, effs)
  | Import json => importExcel json st
  end.

(** What the rendered page can fire: an input exists for each key of
    [FIELD_KEYS], and the Edit and Delete buttons exist for the positions
    that [records.map] renders, those holding a record. *)
Definition enabled (st : state) (e : event) : Prop :=
  match e with
  | Change name _ => In name FIELD_KEYS
  | Edit i | Delete i _ => exists r, JsArray.get (records st) i = Some r
  | _ => True
  end.

Inductive reachable : state -> Prop :=
| reach_init : reachable initialState
| reach_step st e st' effs :
    reachable st -> enabled st e -> handle e st = Returned (st', effs) ->
    reachable st'.

(* ================================================================== *)
(** ** Specification-side definitions *)

(** The shape the registry promises for a key. *)
Module KeyShape.

Definition isKeyUnit (c : codeunit) : bool := Key.isAlnum c || Key.isSep c.

Definition startsWithSep (s : jsstring) : bool :=
  match s with
  | c :: _ => Key.isSep c
  | [] => false
  end.

Fixpoint endsWithSep (s : jsstring) : bool :=
  match s with
  | [] => false
  | [c] => Key.isSep c
  | _ :: t => endsWithSep t
  end.

(** Two separators next to each other somewhere in [s]. *)
Fixpoint hasSepRun (s : jsstring) : bool :=
  match s with
  | a :: t =>
    match t with
    | b :: _ => (Key.isSep a && Key.isSep b) || hasSepRun t
    | [] => false
    end
  | [] => false
  end.

(** Only [a-z0-9] and separators; no separator first or last; no two
    separators in a row. *)
Definition wellFormed (k : jsstring) : Prop :=
  forallb isKeyUnit k = true
  /\ startsWithSep k = false
  /\ endsWithSep k = false
  /\ hasSepRun k = false.

End KeyShape.

(** No two equal strings in a list. *)
Fixpoint distinct (l : list jsstring) : bool :=
  match l with
  | [] => true
  | x :: t => negb (existsb (streq x) t) && distinct t
  end.

(** The value the import picks for a field, if any: the three branches of
    [resolveField] without the assignment. *)
Definition chosen (r : row) (label key : jsstring) : option value :=
  if hasOwnProperty r label then Some (JsObject.get r label)
  else if hasOwnProperty r key then Some (JsObject.get r key)
  else
    match find (sameHeader label) (JsObject.keys r) with
    | Some matchKey =>
      if truthy matchKey then Some (JsObject.get r matchKey) else None
    | None => None
    end.

(** One field of the import as an assignment that cannot fail. *)
Definition assign (r : row) (label : jsstring) (idx : nat) (out : record)
  : record :=
  match chosen r label (keyAt idx) with
  | Some v => JsObject.set out (keyAt idx) v
  | None => out
  end.

(** Every field of the import, as assignments that cannot fail. *)
Definition assignAll (r : row) : record :=
  forEach (assign r) FIELD_LABELS (JsObject.spread emptyRecord).

(** A row whose [hasOwnProperty] is the inherited method: no header of
    it is "hasOwnProperty". *)
Definition plainRow (r : row) : bool :=
  negb (hasOwnProperty r (js "hasOwnProperty")).

(** An array with its holes closed up. *)
Definition compact {A} (a : array A) : array A :=
  List.filter (fun s => match s with Hole => false | _ => true end) a.

(** The three-tier policy as the specification words it. *)
Module Policy.

(** The value under the first header equal to [h], if the row has one. *)
Definition lookup (r : row) (h : jsstring) : option value :=
  option_map snd (find (fun e => streq (fst e) h) r).

(** White space taken off one end. *)
Definition stripLeft (s : jsstring) : jsstring := dropWhile isWhiteSpace s.

(** Lower-cased, then stripped of white space at both ends. *)
Definition normalized (s : jsstring) : jsstring :=
  rev (stripLeft (rev (stripLeft (toLowerCase s)))).

(** The first entry, in the row's order, whose normalized header is the
    normalized label. *)
Definition firstNormalized (r : row) (label : jsstring)
  : option (jsstring * value) :=
  find (fun e => streq (normalized (fst e)) (normalized label)) r.

(** Tier 1, else tier 2, else tier 3, else the empty string. *)
Definition resolve (r : row) (label : jsstring) : value :=
  match lookup r label with
  | Some v => v
  | None =>
    match lookup r (toKey label) with
    | Some v => v
    | None =>
      match firstNormalized r label with
      | Some e => snd e
      | None => VString []
      end
    end
  end.

End Policy.

(** The row the export writes for a record: one cell per schema field,
    headed by the label, holding what the record has under the key. *)
Definition sheetRow (rec : record) : row :=
  combine FIELD_LABELS (map (JsObject.get rec) FIELD_KEYS).

(** A record has exactly the keys of the schema. *)
Definition conforms (rec : record) : Prop :=
  JsObject.keys rec = FIELD_KEYS.

(** What every reachable state satisfies: the form is a conforming
    record, and so is whatever record sits in the collection. *)
Definition slotConforms (s : slot record) : Prop :=
  match s with
  | Elem rec => conforms rec
  | _ => True
  end.

Definition invariant (st : state) : Prop :=
  (exists f, form st = Some f /\ conforms f)
  /\ Forall slotConforms (records st).

(** A header that some field of the schema would accept, by any of the
    three tiers. *)
Definition matchesSchema (h : jsstring) : bool :=
  existsb (fun label => streq h label || streq h (toKey label)
                        || sameHeader label h)
          FIELD_LABELS.

(** The white-space code units, listed. *)
Definition whiteSpaceUnits : list codeunit :=
  [9; 10; 11; 12; 13; 32; 160; 5760; 8192; 8193; 8194; 8195; 8196; 8197;
   8198; 8199; 8200; 8201; 8202; 8232; 8233; 8239; 8287; 12288; 65279]%N.

(** What white space is to the lower-casing: not a surrogate, below
    65536, mapped to itself and not cased. *)
Definition inert (c : codeunit) : bool :=
  negb (isHighSurrogate c) && negb (isLowSurrogate c) && (c <? 65536)%N
  && negb (c =? 931)%N && negb (c =? 304)%N && (lowerPoint c =? c)%N
  && negb (isCased c).

(* ================================================================== *)
(** * Proofs *)

Unset Implicit Arguments.

(** ** Strings *)

Lemma streq_true_iff (a b : jsstring) : streq a b = true <-> a = b.
Proof.
  revert b; induction a as [|x a IH]; intros [|y b]; simpl;
    try (split; [discriminate | congruence]); try tauto.
  rewrite andb_true_iff, N.eqb_eq, IH. split.
  - intros [-> ->]; reflexivity.
  - intros E; inversion E; auto.
Qed.

Lemma streq_refl (a : jsstring) : streq a a = true.
Proof. apply streq_true_iff; reflexivity. Qed.

Lemma streq_false_iff (a b : jsstring) : streq a b = false <-> a <> b.
Proof.
  rewrite <- streq_true_iff. destruct (streq a b); split; congruence.
Qed.

Lemma streq_sym (a b : jsstring) : streq a b = streq b a.
Proof.
  destruct (streq a b) eqn:E.
  - apply streq_true_iff in E; subst; symmetry; apply streq_refl.
  - destruct (streq b a) eqn:E'; [|reflexivity].
    apply streq_true_iff in E'; subst. rewrite streq_refl in E; discriminate.
Qed.

Lemma distinct_NoDup (l : list jsstring) : distinct l = true -> NoDup l.
Proof.
  induction l as [|x t IH]; simpl; [constructor|].
  rewrite andb_true_iff, negb_true_iff. intros [Hx Ht].
  constructor; [|auto].
  intros Hin. assert (existsb (streq x) t = true); [|congruence].
  apply existsb_exists. exists x; split; [assumption | apply streq_refl].
Qed.

(** Both trimming functions cut the string in two. *)
Lemma dropWhile_split p s :
  exists pre, s = pre ++ dropWhile p s /\ forallb p pre = true.
Proof.
  induction s as [|c t [pre [E F]]]; simpl.
  - exists []; auto.
  - destruct (p c) eqn:Pc.
    + exists (c :: pre); simpl; rewrite Pc, F; split; [congruence | reflexivity].
    + exists []; auto.
Qed.

Lemma dropWhileEnd_split p s :
  exists suf, s = dropWhileEnd p s ++ suf /\ forallb p suf = true.
Proof.
  induction s as [|c t [suf [E F]]]; simpl.
  - exists []; auto.
  - destruct (dropWhileEnd p t) as [|d t'] eqn:D.
    + destruct (p c) eqn:Pc.
      * exists (c :: suf); simpl in *; rewrite Pc, F; split; [congruence | reflexivity].
      * exists suf; simpl in *; split; [congruence | assumption].
    + exists suf; split; [|assumption]. simpl in *. congruence.
Qed.

Lemma dropWhile_head p s : 
  match dropWhile p s with c :: _ => p c = false | [] => True end.
Proof.
  induction s as [|c t IH]; simpl; [exact I|].
  destruct (p c) eqn:Pc; [exact IH | exact Pc].
Qed.

Lemma dropWhile_id p s :
  match s with c :: _ => p c = false | [] => True end -> dropWhile p s = s.
Proof. destruct s as [|c t]; simpl; [reflexivity|]. intros ->; reflexivity. Qed.

(** ** Keys *)

Import KeyShape.

Ltac units :=
  intros;
  unfold isKeyUnit in *;
  unfold Key.isAlnum, Key.isSep, Key.sep, isLower, isDigit, isUpper in *;
  repeat match goal with
    | |- context [(?a <=? ?b)%N] => destruct (N.leb_spec a b)
    | |- context [(?a =? ?b)%N] => destruct (N.eqb_spec a b)
    | H : context [(?a <=? ?b)%N] |- _ => destruct (N.leb_spec a b)
    | H : context [(?a =? ?b)%N] |- _ => destruct (N.eqb_spec a b)
    end;
  simpl in *; try reflexivity; try discriminate; try lia.

Lemma alnum_not_sep c : Key.isAlnum c = true -> Key.isSep c = false.
Proof. units. Qed.

Lemma alnum_is_unit c : Key.isAlnum c = true -> isKeyUnit c = true.
Proof. unfold isKeyUnit; intros ->; reflexivity. Qed.

Lemma sep_is_unit : isKeyUnit Key.sep = true.
Proof. reflexivity. Qed.

Lemma unit_cases c :
  isKeyUnit c = true -> Key.isAlnum c = true \/ (Key.isAlnum c = false /\ c = Key.sep).
Proof.
  unfold isKeyUnit. destruct (Key.isAlnum c) eqn:A; simpl; [auto|].
  unfold Key.isSep; intros E%N.eqb_eq; auto.
Qed.

Lemma unit_small c : isKeyUnit c = true -> (c <? 128)%N = true.
Proof. units; apply N.ltb_lt; lia. Qed.

Lemma unit_not_upper c : isKeyUnit c = true -> isUpper c = false.
Proof. units. Qed.

Lemma hasSepRun_cons c s :
  hasSepRun (c :: s) = (Key.isSep c && startsWithSep s) || hasSepRun s.
Proof. destruct s; simpl; [rewrite andb_false_r|]; reflexivity. Qed.

Lemma hasSepRun_app_l a b : hasSepRun (a ++ b) = false -> hasSepRun a = false.
Proof.
  induction a as [|c a IH]; [reflexivity|].
  simpl app. rewrite !hasSepRun_cons, !orb_false_iff.
  intros [H1 H2]; split; [|auto].
  destruct a; simpl in *; [apply andb_false_r | exact H1].
Qed.

Lemma hasSepRun_app_r a b : hasSepRun (a ++ b) = false -> hasSepRun b = false.
Proof.
  induction a as [|c a IH]; [auto|].
  simpl app. rewrite hasSepRun_cons, orb_false_iff. intros [_ H]; auto.
Qed.

(** *** The first [replace] *)

Lemma replaceRuns_units b s : forallb isKeyUnit (Key.replaceRuns b s) = true.
Proof.
  revert b; induction s as [|c t IH]; intros b; simpl; [reflexivity|].
  destruct (Key.isAlnum c) eqn:A; simpl.
  - rewrite (alnum_is_unit _ A), IH; reflexivity.
  - destruct b; simpl; rewrite ?IH; reflexivity.
Qed.

Lemma replaceRuns_start s : startsWithSep (Key.replaceRuns true s) = false.
Proof.
  induction s as [|c t IH]; simpl; [reflexivity|].
  destruct (Key.isAlnum c) eqn:A; simpl; [apply alnum_not_sep, A | exact IH].
Qed.

Lemma replaceRuns_noRun b s : hasSepRun (Key.replaceRuns b s) = false.
Proof.
  revert b; induction s as [|c t IH]; intros b; simpl; [reflexivity|].
  destruct (Key.isAlnum c) eqn:A.
  - rewrite hasSepRun_cons, IH, (alnum_not_sep _ A); reflexivity.
  - destruct b; [apply IH|].
    rewrite hasSepRun_cons, IH, replaceRuns_start, andb_false_r; reflexivity.
Qed.

Lemma replaceRuns_alnum b s :
  existsb Key.isAlnum (Key.replaceRuns b s) = existsb Key.isAlnum s.
Proof.
  revert b; induction s as [|c t IH]; intros b; simpl; [reflexivity|].
  destruct (Key.isAlnum c) eqn:A; simpl.
  - rewrite A; reflexivity.
  - destruct b; simpl; apply IH.
Qed.

Lemma replaceRuns_id b s :
  forallb isKeyUnit s = true -> hasSepRun s = false ->
  (b = true -> startsWithSep s = false) ->
  Key.replaceRuns b s = s.
Proof.
  revert b; induction s as [|c t IH]; intros b U R St; [reflexivity|].
  simpl in U; apply andb_true_iff in U as [Uc Ut].
  rewrite hasSepRun_cons in R; apply orb_false_iff in R as [Rc Rt].
  simpl. destruct (unit_cases _ Uc) as [A | [A ->]]; rewrite A.
  - f_equal. apply IH; auto; discriminate.
  - destruct b.
    + specialize (St eq_refl); simpl in St; discriminate.
    + f_equal. apply IH; auto.
Qed.

(** *** The second [replace] *)

Lemma dropWhileEnd_last s : endsWithSep (dropWhileEnd Key.isSep s) = false.
Proof.
  induction s as [|c t IH]; simpl; [reflexivity|].
  destruct (dropWhileEnd Key.isSep t) as [|d t'] eqn:D.
  - destruct (Key.isSep c) eqn:Sc; simpl; [reflexivity | exact Sc].
  - exact IH.
Qed.

Lemma dropWhileEnd_id s :
  endsWithSep s = false -> dropWhileEnd Key.isSep s = s.
Proof.
  induction s as [|c t IH]; [reflexivity|].
  destruct t as [|d t'].
  - simpl. intros ->; reflexivity.
  - intros E. change (endsWithSep (d :: t') = false) in E.
    change (dropWhileEnd Key.isSep (c :: d :: t'))
      with (match dropWhileEnd Key.isSep (d :: t') with
            | [] => if Key.isSep c then [] else [c]
            | x :: l => c :: x :: l end).
    rewrite (IH E); reflexivity.
Qed.

Lemma dropWhileEnd_start s :
  startsWithSep s = false -> startsWithSep (dropWhileEnd Key.isSep s) = false.
Proof.
  destruct s as [|c t]; [reflexivity|]. simpl. intros Sc.
  destruct (dropWhileEnd Key.isSep t); [rewrite Sc|]; simpl; auto.
Qed.

Lemma stripSeps_wellFormed s :
  forallb isKeyUnit s = true -> hasSepRun s = false ->
  wellFormed (Key.stripSeps s).
Proof.
  intros U R. unfold Key.stripSeps.
  destruct (dropWhile_split Key.isSep s) as [pre [E1 _]].
  destruct (dropWhileEnd_split Key.isSep (dropWhile Key.isSep s)) as [suf [E2 _]].
  set (m := dropWhile Key.isSep s) in *.
  set (k := dropWhileEnd Key.isSep m) in *.
  assert (Um : forallb isKeyUnit m = true).
  { rewrite E1, forallb_app in U. apply andb_true_iff in U; tauto. }
  assert (Rm : hasSepRun m = false).
  { rewrite E1 in R. eapply hasSepRun_app_r; eauto. }
  assert (Sm : startsWithSep m = false).
  { generalize (dropWhile_head Key.isSep s). fold m. destruct m; simpl; auto. }
  repeat split.
  - rewrite E2, forallb_app in Um. apply andb_true_iff in Um; tauto.
  - apply dropWhileEnd_start, Sm.
  - apply dropWhileEnd_last.
  - rewrite E2 in Rm. eapply hasSepRun_app_l; eauto.
Qed.

Lemma forallb_sep_no_alnum s :
  forallb Key.isSep s = true -> existsb Key.isAlnum s = false.
Proof.
  induction s as [|c t IH]; simpl; [reflexivity|].
  rewrite andb_true_iff. intros [Sc St]. rewrite (IH St), orb_false_r.
  destruct (Key.isAlnum c) eqn:A; [|reflexivity].
  rewrite (alnum_not_sep _ A) in Sc; discriminate.
Qed.

Lemma stripSeps_alnum s :
  existsb Key.isAlnum (Key.stripSeps s) = existsb Key.isAlnum s.
Proof.
  unfold Key.stripSeps.
  destruct (dropWhile_split Key.isSep s) as [pre [E1 F1]].
  destruct (dropWhileEnd_split Key.isSep (dropWhile Key.isSep s)) as [suf [E2 F2]].
  rewrite E1 at 2. rewrite E2 at 2.
  rewrite !existsb_app, (forallb_sep_no_alnum _ F1), (forallb_sep_no_alnum _ F2).
  rewrite orb_false_r; reflexivity.
Qed.

Lemma stripSeps_id k : wellFormed k -> Key.stripSeps k = k.
Proof.
  intros (_ & S & E & _). unfold Key.stripSeps.
  rewrite dropWhile_id; [apply dropWhileEnd_id, E|].
  destruct k; simpl in *; auto.
Qed.

(** *** Lower-casing a key *)

Lemma unit_no_surrogate c : isKeyUnit c = true -> isHighSurrogate c = false.
Proof. unfold isHighSurrogate. units. Qed.

Lemma codePoints_units k : forallb isKeyUnit k = true -> codePoints k = k.
Proof.
  induction k as [|c t IH]; [reflexivity|].
  cbn [forallb]. rewrite andb_true_iff. intros [Uc Ut].
  cbn [codePoints]. rewrite (unit_no_surrogate _ Uc), (IH Ut). reflexivity.
Qed.

Lemma lowerAt_unit before c after :
  isKeyUnit c = true -> lowerAt before c after = [c].
Proof.
  intros U. unfold lowerAt, lowerPoint.
  rewrite (unit_small _ U), (unit_not_upper _ U).
  destruct (N.eqb_spec c 931) as [->|_]; [discriminate U|].
  destruct (N.eqb_spec c 304) as [->|_]; [discriminate U|]. reflexivity.
Qed.

Lemma lowerPoints_units k : forall before,
  forallb isKeyUnit k = true -> lowerPoints before k = k.
Proof.
  induction k as [|c t IH]; intros before; [reflexivity|].
  cbn [forallb]. rewrite andb_true_iff. intros [Uc Ut].
  cbn [lowerPoints]. rewrite (lowerAt_unit _ _ _ Uc), (IH _ Ut). reflexivity.
Qed.

Lemma codeUnits_units k : forallb isKeyUnit k = true -> codeUnits k = k.
Proof.
  unfold codeUnits. induction k as [|c t IH]; [reflexivity|].
  cbn [forallb flat_map]. rewrite andb_true_iff. intros [Uc Ut].
  rewrite (IH Ut). unfold utf16.
  assert (H : (c <? 65536)%N = true).
  { apply unit_small in Uc. apply N.ltb_lt in Uc. apply N.ltb_lt. lia. }
  rewrite H. reflexivity.
Qed.

Lemma toLowerCase_id k : forallb isKeyUnit k = true -> toLowerCase k = k.
Proof.
  intros U. unfold toLowerCase.
  rewrite (codePoints_units _ U), (lowerPoints_units _ _ U).
  apply codeUnits_units, U.
Qed.

Lemma wellFormed_truthy k : wellFormed k -> truthy k = existsb Key.isAlnum k.
Proof.
  intros (U & S & _ & _). destruct k as [|c t]; [reflexivity|].
  simpl in *. apply andb_true_iff in U as [Uc _].
  destruct (unit_cases _ Uc) as [-> | [_ ->]]; [reflexivity | discriminate].
Qed.

Lemma toKey_wellFormed label : wellFormed (toKey label).
Proof.
  unfold toKey. apply stripSeps_wellFormed.
  - apply replaceRuns_units.
  - apply replaceRuns_noRun.
Qed.

Lemma toKey_fixes k : wellFormed k -> toKey k = k.
Proof.
  intros W. unfold toKey.
  destruct W as (U & S & E & R).
  rewrite (toLowerCase_id _ U).
  rewrite (@replaceRuns_id false k U R); [|discriminate].
  apply stripSeps_id; repeat split; assumption.
Qed.

(** ** Plain objects *)

Lemma hasOwnProperty_In (o : obj) k :
  hasOwnProperty o k = true <-> In k (JsObject.keys o).
Proof.
  unfold hasOwnProperty, JsObject.keys. rewrite existsb_exists, in_map_iff.
  split; intros [e [H1 H2]].
  - exists e. apply streq_true_iff in H2. auto.
  - exists e. subst. split; [assumption | apply streq_refl].
Qed.

Lemma get_set_same (o : obj) k v : JsObject.get (JsObject.set o k v) k = v.
Proof.
  induction o as [|[k' v'] t IH]; simpl.
  - rewrite streq_refl; reflexivity.
  - destruct (streq k' k) eqn:E; simpl; rewrite E; auto.
Qed.

Lemma get_set_other (o : obj) k k' v :
  k <> k' -> JsObject.get (JsObject.set o k v) k' = JsObject.get o k'.
Proof.
  intros N. induction o as [|[k0 v0] t IH]; simpl.
  - apply streq_false_iff in N. rewrite N; reflexivity.
  - destruct (streq k0 k) eqn:E; simpl.
    + apply streq_true_iff in E; subst k0.
      apply streq_false_iff in N. rewrite N; reflexivity.
    + rewrite IH; reflexivity.
Qed.

Lemma keys_set_present (o : obj) k v :
  In k (JsObject.keys o) -> JsObject.keys (JsObject.set o k v) = JsObject.keys o.
Proof.
  induction o as [|[k0 v0] t IH]; simpl; [tauto|].
  destruct (streq k0 k) eqn:E; simpl; [reflexivity|].
  intros [-> | H]; [rewrite streq_refl in E; discriminate|].
  rewrite IH; auto.
Qed.

Lemma set_absent (o : obj) k v :
  ~ In k (JsObject.keys o) -> JsObject.set o k v = o ++ [(k, v)].
Proof.
  induction o as [|[k0 v0] t IH]; simpl; [reflexivity|].
  intros N. destruct (streq k0 k) eqn:E.
  - apply streq_true_iff in E. tauto.
  - rewrite IH; tauto.
Qed.

Lemma spreadInto_NoDup (src base : obj) :
  NoDup (JsObject.keys (base ++ src)) -> spreadInto base src = base ++ src.
Proof.
  revert base; induction src as [|[k v] t IH]; intros base ND; simpl.
  - rewrite app_nil_r; reflexivity.
  - unfold spreadInto in *. simpl.
    assert (Hk : ~ In k (JsObject.keys base)).
    { unfold JsObject.keys in *. rewrite map_app in ND. simpl in ND.
      apply NoDup_remove_2 in ND. rewrite in_app_iff in ND. tauto. }
    rewrite (set_absent base k v Hk), IH, <- app_assoc; [reflexivity|].
    rewrite <- app_assoc; exact ND.
Qed.

Lemma spread_NoDup (o : obj) : NoDup (JsObject.keys o) -> JsObject.spread o = o.
Proof. intros ND. unfold JsObject.spread. rewrite spreadInto_NoDup; auto. Qed.

(** ** The schema *)

Lemma FIELD_KEYS_distinct : distinct FIELD_KEYS = true.
Proof. vm_compute. reflexivity. Qed.

Lemma FIELD_KEYS_NoDup : NoDup FIELD_KEYS.
Proof. apply distinct_NoDup, FIELD_KEYS_distinct. Qed.

Lemma FIELD_KEYS_length : List.length FIELD_KEYS = 23.
Proof. reflexivity. Qed.

Lemma FIELD_LABELS_length : List.length FIELD_LABELS = 23.
Proof. reflexivity. Qed.

Lemma keyAt_toKey idx :
  idx < 23 -> keyAt idx = toKey (labelAt idx).
Proof.
  intros H. unfold keyAt, labelAt, FIELD_KEYS.
  rewrite (nth_indep _ _ (toKey (js "undefined"))).
  - apply map_nth.
  - rewrite length_map, FIELD_LABELS_length; exact H.
Qed.

Lemma keyAt_inj i j : i < 23 -> j < 23 -> keyAt i = keyAt j -> i = j.
Proof.
  intros Hi Hj E. unfold keyAt in E.
  eapply (proj1 (NoDup_nth FIELD_KEYS (js "undefined")) FIELD_KEYS_NoDup);
    rewrite ?FIELD_KEYS_length; eauto.
Qed.

Lemma emptyRecord_conforms : conforms emptyRecord.
Proof. vm_compute. reflexivity. Qed.

Lemma emptyRecord_spread : JsObject.spread emptyRecord = emptyRecord.
Proof.
  apply spread_NoDup. rewrite emptyRecord_conforms. apply FIELD_KEYS_NoDup.
Qed.

Lemma emptyRecord_get k :
  In k FIELD_KEYS -> JsObject.get emptyRecord k = VString [].
Proof.
  assert (H : forallb (fun k => match JsObject.get emptyRecord k with
                                | VString [] => true | _ => false end)
                      FIELD_KEYS = true) by (vm_compute; reflexivity).
  rewrite forallb_forall in H. intros Hk. specialize (H k Hk).
  destruct (JsObject.get emptyRecord k) as [|[|]| |]; congruence.
Qed.

(** ** Import: one row *)

Lemma assign_chosen r label idx out :
  assign r label idx out =
  match chosen r label (keyAt idx) with
  | Some v => JsObject.set out (keyAt idx) v
  | None => out
  end.
Proof. reflexivity. Qed.

(** Stripping the right end is stripping the left end of the reverse. *)
Lemma dropWhile_snoc p l c :
  dropWhile p (l ++ [c]) =
  match dropWhile p l with
  | [] => if p c then [] else [c]
  | d :: t => (d :: t) ++ [c]
  end.
Proof.
  induction l as [|x t IH]; simpl.
  - destruct (p c); reflexivity.
  - destruct (p x); [exact IH | reflexivity].
Qed.

Lemma dropWhileEnd_rev p s : dropWhileEnd p s = rev (dropWhile p (rev s)).
Proof.
  induction s as [|c t IH]; [reflexivity|].
  cbn [dropWhileEnd rev]. rewrite dropWhile_snoc, IH.
  destruct (dropWhile p (rev t)) as [|d l]; cbn [rev].
  - destruct (p c); reflexivity.
  - rewrite rev_app_distr. cbn [rev app].
    destruct (rev l ++ [d]) eqn:E; [|reflexivity].
    destruct (rev l); discriminate.
Qed.

Lemma normalized_trim s : Policy.normalized s = trim (toLowerCase s).
Proof.
  unfold Policy.normalized, Policy.stripLeft, trim.
  symmetry. apply dropWhileEnd_rev.
Qed.

Lemma firstNormalized_sameHeader (r : row) label :
  Policy.firstNormalized r label = find (fun e => sameHeader label (fst e)) r.
Proof.
  unfold Policy.firstNormalized, sameHeader.
  induction r as [|e t IH]; [reflexivity|].
  cbn [find]. rewrite IH, !normalized_trim. reflexivity.
Qed.

Section OneRow.

Variable r : row.

(** Fields other than the one stored under [k] leave [k] alone. *)
Lemma forEachFrom_frame labels : forall idx out k,
  (forall j, idx <= j < idx + List.length labels -> keyAt j <> k) ->
  JsObject.get (forEachFrom (assign r) idx labels out) k
  = JsObject.get out k.
Proof.
  induction labels as [|label t IH]; intros idx out k Hk; simpl; [reflexivity|].
  rewrite IH.
  - rewrite assign_chosen.
    destruct (chosen r label (keyAt idx)); [|reflexivity].
    apply get_set_other. apply Hk. simpl; lia.
  - intros j Hj. apply Hk. simpl; lia.
Qed.

(** The field at position [idx + n] decides what its key holds. *)
Lemma forEachFrom_at labels : forall idx out n label,
  nth_error labels n = Some label ->
  (forall j, idx <= j < idx + List.length labels -> j <> idx + n ->
             keyAt j <> keyAt (idx + n)) ->
  JsObject.get (forEachFrom (assign r) idx labels out) (keyAt (idx + n))
  = match chosen r label (keyAt (idx + n)) with
    | Some v => v
    | None => JsObject.get out (keyAt (idx + n))
    end.
Proof.
  induction labels as [|l0 t IH]; intros idx out n label Hn Hk.
  - destruct n; discriminate.
  - destruct n as [|n]; simpl in Hn.
    + injection Hn as ->. rewrite Nat.add_0_r in *. simpl.
      rewrite forEachFrom_frame.
      * rewrite assign_chosen.
        destruct (chosen r label (keyAt idx)); [apply get_set_same | reflexivity].
      * intros j Hj. apply Hk; simpl; lia.
    + simpl. replace (idx + S n) with (S idx + n) in * by lia.
      rewrite (IH (S idx) _ n label Hn).
      * destruct (chosen r label (keyAt (S idx + n))); [reflexivity|].
        rewrite assign_chosen.
        destruct (chosen r l0 (keyAt idx)); [|reflexivity].
        apply get_set_other. apply Hk; simpl; lia.
      * intros j Hj Hne. apply Hk; simpl; lia.
Qed.

(** No field adds or moves a property of a conforming [out]. *)
Lemma forEachFrom_keys labels : forall idx out,
  (forall j, idx <= j < idx + List.length labels ->
             In (keyAt j) (JsObject.keys out)) ->
  JsObject.keys (forEachFrom (assign r) idx labels out)
  = JsObject.keys out.
Proof.
  induction labels as [|l0 t IH]; intros idx out Hin; simpl; [reflexivity|].
  assert (E : JsObject.keys (assign r l0 idx out) = JsObject.keys out).
  { rewrite assign_chosen.
    destruct (chosen r l0 (keyAt idx)); [|reflexivity].
    apply keys_set_present, Hin. simpl; lia. }
  rewrite IH, E; [reflexivity|].
  intros j Hj. rewrite E. apply Hin. simpl; lia.
Qed.

Lemma keyAt_In j : j < 23 -> In (keyAt j) FIELD_KEYS.
Proof.
  intros H. apply nth_In. rewrite FIELD_KEYS_length; exact H.
Qed.

Lemma assignAll_conforms : conforms (assignAll r).
Proof.
  unfold conforms, assignAll, forEach.
  rewrite forEachFrom_keys; rewrite emptyRecord_spread.
  - apply emptyRecord_conforms.
  - intros j Hj. rewrite emptyRecord_conforms. apply keyAt_In.
    rewrite FIELD_LABELS_length in Hj. change (0 + 23) with 23 in Hj. lia.
Qed.

Lemma assignAll_get idx :
  idx < 23 ->
  JsObject.get (assignAll r) (keyAt idx)
  = match chosen r (labelAt idx) (keyAt idx) with
    | Some v => v
    | None => VString []
    end.
Proof.
  intros H. unfold assignAll, forEach.
  pose proof (forEachFrom_at FIELD_LABELS 0 (JsObject.spread emptyRecord)
                idx (labelAt idx)) as A.
  rewrite FIELD_LABELS_length in A.
  change (0 + idx) with idx in A. change (0 + 23) with 23 in A.
  rewrite A.
  - rewrite emptyRecord_spread, (emptyRecord_get _ (keyAt_In idx H)).
    reflexivity.
  - unfold labelAt. apply nth_error_nth'. rewrite FIELD_LABELS_length; exact H.
  - intros j Hj Hne E. apply Hne. apply keyAt_inj; auto; lia.
Qed.

(** *** The code's three branches against the worded policy *)

Lemma lookup_hasOwnProperty h :
  hasOwnProperty r h = match Policy.lookup r h with Some _ => true | None => false end.
Proof.
  unfold hasOwnProperty, Policy.lookup.
  induction r as [|[k v] t IH]; simpl; [reflexivity|].
  destruct (streq k h); simpl; [reflexivity | exact IH].
Qed.

Lemma lookup_get h v : Policy.lookup r h = Some v -> JsObject.get r h = v.
Proof.
  unfold Policy.lookup.
  induction r as [|[k v0] t IH]; simpl; [discriminate|].
  destruct (streq k h); simpl; [congruence | exact IH].
Qed.

(** [find] over the keys and then [get] is [find] over the entries. *)
Lemma find_keys_entries (p : jsstring -> bool) :
  match find p (JsObject.keys r) with
  | Some h =>
    exists v, find (fun e => p (fst e)) r = Some (h, v) /\ JsObject.get r h = v
  | None => find (fun e => p (fst e)) r = None
  end.
Proof.
  induction r as [|[k v] t IH]; simpl; [reflexivity|].
  destruct (p k) eqn:Pk.
  - exists v. rewrite streq_refl. auto.
  - destruct (find p (JsObject.keys t)) as [h|] eqn:F; [|exact IH].
    destruct IH as [v' [E G]]. exists v'. split; [exact E|].
    destruct (streq k h) eqn:S; [|exact G].
    apply streq_true_iff in S; subst k.
    apply find_some in F. destruct F as [_ Ph]. congruence.
Qed.

Lemma sameHeader_truthy label h :
  truthy (Policy.normalized label) = true ->
  sameHeader label h = true -> truthy h = true.
Proof.
  intros T S. destruct h; [|reflexivity].
  unfold sameHeader in S. apply streq_true_iff in S.
  rewrite normalized_trim, <- S in T. discriminate.
Qed.

Lemma chosen_policy label :
  truthy (Policy.normalized label) = true ->
  match chosen r label (toKey label) with
  | Some v => v
  | None => VString []
  end = Policy.resolve r label.
Proof.
  intros T. unfold chosen, Policy.resolve.
  rewrite !lookup_hasOwnProperty.
  destruct (Policy.lookup r label) as [v|] eqn:L1; [apply lookup_get, L1|].
  destruct (Policy.lookup r (toKey label)) as [v|] eqn:L2; [apply lookup_get, L2|].
  rewrite firstNormalized_sameHeader.
  generalize (find_keys_entries (sameHeader label)).
  destruct (find (sameHeader label) (JsObject.keys r)) as [h|] eqn:F.
  - intros [v [E G]]. rewrite E. apply find_some in F. destruct F as [_ S].
    rewrite (sameHeader_truthy _ _ T S). exact G.
  - intros E. rewrite E. reflexivity.
Qed.

End OneRow.

Lemma FIELD_LABELS_normalized :
  forallb (fun l => truthy (Policy.normalized l)) FIELD_LABELS = true.
Proof. vm_compute. reflexivity. Qed.

Lemma assignAll_policy r :
  Forall (fun label =>
            JsObject.get (assignAll r) (toKey label) = Policy.resolve r label)
         FIELD_LABELS.
Proof.
  apply Forall_forall. intros label Hin.
  destruct (In_nth _ _ (js "undefined") Hin) as [idx [Hlt E]].
  rewrite FIELD_LABELS_length in Hlt. fold (labelAt idx) in E. subst label.
  rewrite <- (keyAt_toKey idx Hlt), (assignAll_get r idx Hlt).
  rewrite (keyAt_toKey idx Hlt). apply chosen_policy.
  generalize FIELD_LABELS_normalized. rewrite forallb_forall.
  intros H; apply H. apply nth_In. rewrite FIELD_LABELS_length; exact Hlt.
Qed.

(** *** The import as the code runs it *)

Lemma resolveField_plain r label idx out :
  plainRow r = true ->
  resolveField r label idx out = Returned (assign r label idx out).
Proof.
  unfold plainRow, resolveField, callHasOwnProperty, assign, chosen.
  rewrite negb_true_iff. intros ->. cbn [bind].
  destruct (hasOwnProperty r label); [reflexivity|].
  destruct (hasOwnProperty r (keyAt idx)); [reflexivity|].
  destruct (find (sameHeader label) (JsObject.keys r)) as [h|]; [|reflexivity].
  destruct (truthy h); reflexivity.
Qed.

Lemma resolveField_shadowed r label idx out :
  plainRow r = false -> resolveField r label idx out = Threw TypeError.
Proof.
  unfold plainRow, resolveField, callHasOwnProperty.
  rewrite negb_false_iff. intros ->. reflexivity.
Qed.

Section Throwing.

Context {A T : Type}.
Variable f : A -> nat -> T -> outcome T.

Lemma forEachFrom_threw e : forall l idx,
  forEachFrom (fun x i acc => s <- acc ;; f x i s) idx l (Threw e) = Threw e.
Proof. induction l as [|x t IH]; intros idx; [reflexivity | apply IH]. Qed.

Lemma forEachFrom_returned (g : A -> nat -> T -> T) :
  (forall x i s, f x i s = Returned (g x i s)) ->
  forall l idx s,
    forEachFrom (fun x i acc => s' <- acc ;; f x i s') idx l (Returned s)
    = Returned (forEachFrom g idx l s).
Proof.
  intros H. induction l as [|x t IH]; intros idx s; [reflexivity|].
  cbn [forEachFrom bind]. rewrite H. apply IH.
Qed.

Lemma forEachFrom_throws e :
  (forall x i s, f x i s = Threw e) ->
  forall l idx s, l <> [] ->
    forEachFrom (fun x i acc => s' <- acc ;; f x i s') idx l (Returned s)
    = Threw e.
Proof.
  intros H [|x t] idx s N; [congruence|].
  cbn [forEachFrom bind]. rewrite H. apply forEachFrom_threw.
Qed.

End Throwing.

Lemma FIELD_LABELS_nonempty : FIELD_LABELS <> [].
Proof.
  intros E. generalize FIELD_LABELS_length. rewrite E. discriminate.
Qed.

Lemma reconcileRow_plain r :
  plainRow r = true -> reconcileRow r = Returned (assignAll r).
Proof.
  intros P. unfold reconcileRow, assignAll, forEach.
  apply forEachFrom_returned. intros x i s. apply resolveField_plain, P.
Qed.

Lemma reconcileRow_shadowed r :
  plainRow r = false -> reconcileRow r = Threw TypeError.
Proof.
  intros P. unfold reconcileRow, forEach.
  apply forEachFrom_throws; [|apply FIELD_LABELS_nonempty].
  intros x i s. apply resolveField_shadowed, P.
Qed.

Lemma reconcileRow_cases r :
  reconcileRow r = if plainRow r then Returned (assignAll r) else Threw TypeError.
Proof.
  destruct (plainRow r) eqn:P;
    [apply reconcileRow_plain | apply reconcileRow_shadowed]; exact P.
Qed.

Lemma reconcile_cons r t :
  reconcile (r :: t) =
  bind (reconcileRow r)
       (fun b => bind (reconcile t) (fun t' => Returned (b :: t'))).
Proof. reflexivity. Qed.

Lemma reconcile_plain json :
  forallb plainRow json = true -> reconcile json = Returned (map assignAll json).
Proof.
  induction json as [|r t IH]; [reflexivity|].
  cbn [forallb]. rewrite andb_true_iff. intros [P Pt].
  rewrite reconcile_cons, (reconcileRow_plain _ P), (IH Pt). reflexivity.
Qed.

Lemma reconcile_shadowed json :
  forallb plainRow json = false -> reconcile json = Threw TypeError.
Proof.
  induction json as [|r t IH]; [discriminate|].
  cbn [forallb]. rewrite reconcile_cons, reconcileRow_cases.
  destruct (plainRow r); cbn [andb bind]; [|reflexivity].
  intros Pt. rewrite (IH Pt). reflexivity.
Qed.

Lemma reconcile_returns json recs :
  reconcile json = Returned recs -> recs = map assignAll json.
Proof.
  destruct (forallb plainRow json) eqn:P.
  - rewrite (reconcile_plain _ P). congruence.
  - rewrite (reconcile_shadowed _ P). discriminate.
Qed.

(** ** Arrays *)

Section Arrays.

Context {A : Type}.
Implicit Types (a : array A) (s : slot A).

Lemma spread_length a : List.length (JsArray.spread a) = List.length a.
Proof. apply length_map. Qed.

Lemma spread_dense (l : list A) : JsArray.spread (dense l) = dense l.
Proof.
  unfold JsArray.spread, dense. rewrite map_map. reflexivity.
Qed.

Lemma get_spread a i : JsArray.get (JsArray.spread a) i = JsArray.get a i.
Proof.
  unfold JsArray.get, JsArray.spread. destruct (i <? 0)%Z; [reflexivity|].
  rewrite nth_error_map.
  destruct (nth_error a (Z.to_nat i)) as [[| |x]|]; reflexivity.
Qed.

Lemma setNat_length a n s :
  List.length (setNat a n s) = Nat.max (List.length a) (S n).
Proof.
  revert a; induction n as [|n IH]; intros [|x t]; simpl; try reflexivity.
  - destruct (List.length t); reflexivity.
  - rewrite IH. reflexivity.
  - rewrite IH. reflexivity.
Qed.

Lemma setNat_same a n s : nth_error (setNat a n s) n = Some s.
Proof.
  revert a; induction n as [|n IH]; intros [|x t]; simpl; auto.
Qed.

(** Reading any other position sees what was there: a hole and a
    position past the end both read as [undefined]. *)
Lemma setNat_other a n s m :
  m <> n ->
  match nth_error (setNat a n s) m with Some x => read x | None => None end
  = match nth_error a m with Some x => read x | None => None end.
Proof.
  revert a m; induction n as [|n IH]; intros [|x t] [|m] H; simpl;
    try reflexivity; try congruence.
  - destruct m; reflexivity.
  - rewrite IH by congruence. destruct m; reflexivity.
  - apply IH; congruence.
Qed.

Lemma setNat_inside a n s :
  n < List.length a -> setNat a n s = firstn n a ++ s :: skipn (S n) a.
Proof.
  revert a; induction n as [|n IH]; intros [|x t] H; simpl in *; try lia.
  - reflexivity.
  - rewrite IH by lia. reflexivity.
Qed.

Lemma setNat_beyond a n s :
  List.length a <= n ->
  setNat a n s = a ++ repeat Hole (n - List.length a) ++ [s].
Proof.
  revert a; induction n as [|n IH]; intros [|x t] H; simpl in *; try lia.
  - reflexivity.
  - rewrite IH by (simpl; lia). simpl. rewrite Nat.sub_0_r. reflexivity.
  - rewrite IH by lia. reflexivity.
Qed.

Lemma get_set_at a (i : Z) v :
  (0 <= i)%Z -> JsArray.get (JsArray.set a i v) i = v.
Proof.
  intros H. unfold JsArray.get, JsArray.set.
  destruct (Z.ltb_spec i 0); [lia|].
  rewrite setNat_same. destruct v; reflexivity.
Qed.

Lemma get_set_off a (i j : Z) v :
  (0 <= i)%Z -> j <> i -> JsArray.get (JsArray.set a i v) j = JsArray.get a j.
Proof.
  intros H N. unfold JsArray.get, JsArray.set.
  destruct (Z.ltb_spec j 0); [reflexivity|].
  apply setNat_other. lia.
Qed.

Lemma get_In a i x : JsArray.get a i = Some x -> In (Elem x) a.
Proof.
  unfold JsArray.get. destruct (i <? 0)%Z; [discriminate|].
  destruct (nth_error a (Z.to_nat i)) as [[| |y]|] eqn:E; try discriminate.
  simpl. intros [= ->]. eapply nth_error_In; eauto.
Qed.

Lemma get_dense (l : list A) i :
  JsArray.get (dense l) i =
  if (i <? 0)%Z then None else nth_error l (Z.to_nat i).
Proof.
  unfold JsArray.get, dense. destruct (i <? 0)%Z; [reflexivity|].
  rewrite nth_error_map. destruct (nth_error l (Z.to_nat i)); reflexivity.
Qed.

(** [filter] with the test [idx !== i]. *)
Lemma filterFrom_In p idx a s : In s (filterFrom p idx a) -> In s a.
Proof.
  revert idx; induction a as [|x t IH]; intros idx; simpl; [tauto|].
  destruct x; try (intros H; right; eapply IH; exact H);
    (destruct (p _ idx); simpl; [intros [->|H]; [left; reflexivity | right; eapply IH; exact H]
                                | intros H; right; eapply IH; exact H]).
Qed.

Lemma filterFrom_dense_miss (l : list A) (i idx : Z) :
  (i < idx \/ idx + Z.of_nat (List.length l) <= i)%Z ->
  filterFrom (fun _ k => negb (k =? i)%Z) idx (dense l) = dense l.
Proof.
  revert idx; induction l as [|x t IH]; intros idx H; simpl; [reflexivity|].
  destruct (Z.eqb_spec idx i) as [->|N]; simpl.
  - simpl List.length in H. lia.
  - f_equal. apply IH. simpl List.length in H. lia.
Qed.

Lemma filterFrom_dense_hit (l : list A) (n : nat) (idx : Z) :
  n < List.length l ->
  filterFrom (fun _ k => negb (k =? idx + Z.of_nat n)%Z) idx (dense l)
  = dense (firstn n l ++ skipn (S n) l).
Proof.
  revert n idx; induction l as [|x t IH]; intros n idx H; simpl in H; [lia|].
  destruct n as [|n]; simpl.
  - rewrite Z.add_0_r, Z.eqb_refl. simpl.
    apply filterFrom_dense_miss. lia.
  - destruct (Z.eqb_spec idx (idx + Z.pos (Pos.of_succ_nat n))) as [E|N]; [lia|].
    simpl. f_equal.
    replace (idx + Z.pos (Pos.of_succ_nat n))%Z with (idx + 1 + Z.of_nat n)%Z by lia.
    apply IH. lia.
Qed.

Lemma filterFrom_miss a (i idx : Z) :
  (i < idx \/ idx + Z.of_nat (List.length a) <= i)%Z ->
  filterFrom (fun _ k => negb (k =? i)%Z) idx a = compact a.
Proof.
  revert idx; induction a as [|x t IH]; intros idx H; [reflexivity|].
  cbn [List.length] in H.
  assert (E : filterFrom (fun _ k => negb (k =? i)%Z) (idx + 1) t = compact t)
    by (apply IH; lia).
  destruct x; cbn [filterFrom compact List.filter]; fold (compact t);
    [exact E | |];
    (destruct (Z.eqb_spec idx i) as [->|N]; [lia|]; cbn [negb]; rewrite E;
     reflexivity).
Qed.

Lemma compact_full a : Forall (fun s => s <> Hole) a -> compact a = a.
Proof.
  induction 1 as [|x t Hx _ IH]; [reflexivity|].
  unfold compact in *. cbn [List.filter]. rewrite IH.
  destruct x; [congruence | reflexivity | reflexivity].
Qed.

Lemma compact_no_hole a : Forall (fun s => s <> Hole) (compact a).
Proof.
  apply Forall_forall. intros s Hin E. subst s.
  unfold compact in Hin. apply filter_In in Hin. destruct Hin; discriminate.
Qed.

Lemma spread_full a : Forall (fun s => s <> Hole) a -> JsArray.spread a = a.
Proof.
  induction 1 as [|x t Hx _ IH]; [reflexivity|].
  unfold JsArray.spread in *. cbn [map]. rewrite IH.
  destruct x; [congruence | reflexivity | reflexivity].
Qed.

Lemma nth_error_spread_elem a n x :
  nth_error a n = Some (Elem x) -> nth_error (JsArray.spread a) n = Some (Elem x).
Proof.
  intros H. unfold JsArray.spread. rewrite nth_error_map, H. reflexivity.
Qed.

Lemma setNat_keeps a n s : nth_error a n = Some s -> setNat a n s = a.
Proof.
  revert a; induction n as [|n IH]; intros [|x t] H; simpl in *;
    try discriminate.
  - congruence.
  - rewrite IH; auto.
Qed.

End Arrays.

(** ** Export *)


Lemma exportRow_sheetRow rec : exportRow (Some rec) = Returned (sheetRow rec).
Proof. vm_compute. reflexivity. Qed.

Lemma exportRow_undefined : exportRow None = Threw TypeError.
Proof. vm_compute. reflexivity. Qed.



Lemma mapArray_cons_elem {A B} (f : option A -> outcome B) x t :
  mapArray f (Elem x :: t) =
  bind (f (Some x)) (fun b => bind (mapArray f t) (fun t' => Returned (Elem b :: t'))).
Proof. reflexivity. Qed.


(** ** The invariant of the component *)

Lemma conforms_spread rec : conforms rec -> JsObject.spread rec = rec.
Proof. intros C. apply spread_NoDup. rewrite C. apply FIELD_KEYS_NoDup. Qed.

Lemma conforms_set rec k v :
  conforms rec -> In k FIELD_KEYS -> conforms (JsObject.set rec k v).
Proof.
  unfold conforms. intros C Hk. rewrite keys_set_present; rewrite C; auto.
Qed.

Lemma conforms_has rec k :
  conforms rec -> (hasOwnProperty rec k = true <-> In k FIELD_KEYS).
Proof. intros C. rewrite hasOwnProperty_In, C. tauto. Qed.

Lemma Forall_spread (a : array record) :
  Forall slotConforms a -> Forall slotConforms (JsArray.spread a).
Proof.
  unfold JsArray.spread. intros F. apply Forall_map.
  eapply Forall_impl; [|exact F]. intros [| |x]; simpl; auto.
Qed.

Lemma Forall_setNat (a : array record) n s :
  Forall slotConforms a -> slotConforms s -> Forall slotConforms (setNat a n s).
Proof.
  revert a; induction n as [|n IH]; intros [|x t] F S; simpl.
  - constructor; auto.
  - inversion F; subst. constructor; auto.
  - constructor; [exact I | apply IH; auto].
  - inversion F; subst. constructor; auto.
Qed.

Lemma Forall_filter (a : array record) p :
  Forall slotConforms a -> Forall slotConforms (JsArray.filter p a).
Proof.
  intros F. apply Forall_forall. intros s Hs.
  apply filterFrom_In in Hs. rewrite Forall_forall in F. auto.
Qed.

Lemma Forall_dense_assignAll json :
  Forall slotConforms (dense (map assignAll json)).
Proof.
  unfold dense. rewrite map_map. apply Forall_map.
  apply Forall_forall. intros r _. apply assignAll_conforms.
Qed.

Lemma invariant_initial : invariant initialState.
Proof.
  split; [|constructor]. exists emptyRecord. split.
  - unfold initialState, form. rewrite emptyRecord_spread. reflexivity.
  - apply emptyRecord_conforms.
Qed.

Lemma fresh_form_ok :
  exists f, Some (JsObject.spread emptyRecord) = Some f /\ conforms f.
Proof.
  exists emptyRecord. rewrite emptyRecord_spread.
  split; [reflexivity | apply emptyRecord_conforms].
Qed.

Lemma invariant_step st e st' effs :
  invariant st -> enabled st e -> handle e st = Returned (st', effs) ->
  invariant st'.
Proof.
  intros [[f [Ef Cf]] Fr] En H.
  destruct e as [name v| |i|i c| |c| |json]; unfold handle in H.
  - injection H as <- _. unfold handleChange.
    split; cbn [form records]; [|exact Fr].
    rewrite Ef. unfold spreadOpt.
    rewrite (conforms_spread _ Cf). eexists; split; [reflexivity|].
    apply conforms_set; assumption.
  - injection H as <- _. unfold handleSubmit.
    destruct (0 <=? editingIndex st)%Z; split; cbn [form records];
      try apply fresh_form_ok.
    + unfold JsArray.set. apply Forall_setNat; [apply Forall_spread, Fr|].
      rewrite Ef. exact Cf.
    + apply Forall_app; split; [apply Forall_spread, Fr|].
      constructor; [|constructor]. rewrite Ef. exact Cf.
  - injection H as <- _. destruct En as [r Er]. unfold handleEdit.
    split; cbn [form records]; [|exact Fr].
    exists r. split; [exact Er|].
    apply get_In in Er. rewrite Forall_forall in Fr. exact (Fr _ Er).
  - injection H as <- _. unfold handleDelete.
    destruct (negb c); [split; eauto|].
    split; cbn [form records]; [eauto|]. apply Forall_filter, Fr.
  - injection H as <- _. unfold resetForm.
    split; cbn [form records]; [apply fresh_form_ok | exact Fr].
  - injection H as <- _. unfold clearAll.
    destruct (negb c); split; cbn [form records]; eauto.
  - destruct (downloadExcel st); cbn [bind] in H; [|discriminate].
    injection H as <- _. split; eauto.
  - unfold importExcel in H.
    destruct (List.length json =? 0); [injection H as <- _; split; eauto|].
    destruct (reconcile json) as [mapped|] eqn:M; cbn [bind] in H;
      [|discriminate].
    injection H as <- _. apply reconcile_returns in M. subst mapped.
    split; cbn [form records]; [eauto|].
    apply Forall_app; split;
      [apply Forall_spread, Fr | apply Forall_dense_assignAll].
Qed.

Lemma reachable_invariant st : reachable st -> invariant st.
Proof.
  induction 1 as [|st e st' effs _ IH En H].
  - apply invariant_initial.
  - eapply invariant_step; eauto.
Qed.

(* ================================================================== *)
(** ** The claims *)




(** *** Deleting and updating by position *)

Lemma dense_length {A} (l : list A) : List.length (dense l) = List.length l.
Proof. apply length_map. Qed.

Lemma handleDelete_miss (a : array record) f ei i confirmed :
  (i < 0 \/ Z.of_nat (List.length a) <= i)%Z ->
  handleDelete i confirmed (mkState f a ei)
  = mkState f (if confirmed then compact a else a) ei.
Proof.
  intros H. unfold handleDelete. destruct confirmed; [|reflexivity].
  cbn [negb form records editingIndex]. unfold JsArray.filter.
  rewrite filterFrom_miss by lia. reflexivity.
Qed.

Lemma compact_or_same (a : array record) (confirmed : bool) :
  Forall (fun s => s <> Hole) a -> (if confirmed then compact a else a) = a.
Proof. intros F. destruct confirmed; [apply compact_full, F | reflexivity]. Qed.

Lemma compact_idem {A} (a : array A) : compact (compact a) = compact a.
Proof. apply compact_full, compact_no_hole. Qed.

Lemma handleSubmit_stale (a : array record) f i :
  (Z.of_nat (List.length a) <= i)%Z ->
  records (handleSubmit (mkState f a i))
  = JsArray.spread a ++ repeat Hole (Z.to_nat i - List.length a) ++ [store f].
Proof.
  intros H. unfold handleSubmit. cbn [form records editingIndex].
  destruct (Z.leb_spec 0 i); [|lia]. cbn [records]. unfold JsArray.set.
  rewrite setNat_beyond; rewrite spread_length; [reflexivity | lia].
Qed.

Lemma handleSubmit_negative (a : array record) f i :
  (i < 0)%Z ->
  handleSubmit (mkState f a i)
  = mkState (Some (JsObject.spread emptyRecord))
            (JsArray.spread a ++ [store f]) i.
Proof.
  intros H. unfold handleSubmit. cbn [form records editingIndex].
  destruct (Z.leb_spec 0 i); [lia | reflexivity].
Qed.

(** C2 (as the code has it).  A position that is not valid raises
    nothing, in [handleDelete] and in [handleSubmit] alike: both return
    normally.  Deleting at such a position removes no record: what comes
    back is the collection with its holes, if it has any, closed up, so a
    collection without holes comes back as it was.  Submitting with a
    negative [editingIndex] appends the form. *)
Theorem invalid_position_raises_nothing
    (a : array record) (f : option record) (ei i : Z) :
  (i < 0 \/ Z.of_nat (List.length a) <= i)%Z ->
  (forall confirmed,
     handle (Delete i confirmed) (mkState f a ei)
     = Returned (mkState f (if confirmed then compact a else a) ei, []))
  /\ (Forall (fun s => s <> Hole) a ->
      forall confirmed,
        handle (Delete i confirmed) (mkState f a ei)
        = Returned (mkState f a ei, []))
  /\ (exists st', handle Submit (mkState f a i) = Returned (st', []))
  /\ ((i < 0)%Z ->
      handle Submit (mkState f a i)
      = Returned (mkState (Some emptyRecord)
                          (JsArray.spread a ++ [store f]) i, [])).
Proof.
  intros H. split; [|split; [|split]].
  - intros c. unfold handle. rewrite handleDelete_miss by exact H.
    reflexivity.
  - intros F c. unfold handle. rewrite handleDelete_miss by exact H.
    rewrite (compact_or_same a c F). reflexivity.
  - eexists. reflexivity.
  - intros N. unfold handle. rewrite handleSubmit_negative by exact N.
    rewrite emptyRecord_spread. reflexivity.
Qed.

Lemma invalid_position_raises_nothing_witness :
  handle (Delete 5 true)
         (mkState None [Elem emptyRecord; Hole; Elem []] (-1))
  = Returned (mkState None [Elem emptyRecord; Elem []] (-1), [])
  /\ handle Submit (mkState None [Elem emptyRecord; Hole; Elem []] (-1))
     = Returned (mkState (Some emptyRecord)
                         [Elem emptyRecord; Undef; Elem []; Undef] (-1), []).
Proof.
  destruct (invalid_position_raises_nothing
              [Elem emptyRecord; Hole; Elem []] None (-1) 5
              ltac:(right; simpl; lia)) as (D & _ & _ & _).
  destruct (invalid_position_raises_nothing
              [Elem emptyRecord; Hole; Elem []] None (-1) (-1)
              ltac:(left; lia)) as (_ & _ & _ & S).
  split; [apply (D true) | apply S; lia].
Defined.

(** C2, as the specification words it, fails: on a collection of one
    record, deleting at position 3 returns normally with the collection
    as it was, and submitting with [editingIndex = 3] returns normally
    with a collection of length 4. *)
Lemma invalid_position_is_no_error :
  let st := mkState (Some emptyRecord) (dense [emptyRecord]) 3 in
  handle (Delete 3 true) st = Returned (st, [])
  /\ (forall e, handle (Delete 3 true) st <> Threw e)
  /\ (forall e, handle Submit st <> Threw e)
  /\ records (handleSubmit st)
     = [Elem emptyRecord; Hole; Hole; Elem emptyRecord].
Proof.
  cbv zeta. split; [|split; [|split]].
  - vm_compute. reflexivity.
  - intros e. vm_compute. discriminate.
  - intros e. unfold handle. discriminate.
  - vm_compute. reflexivity.
Qed.

(** C10 (as the code has it).  [handleDelete] at a position below zero
    or at or past the length returns normally and removes no record: the
    records, and any [undefined] among them, stay in their order, the
    form and the editing position stay, and a collection without holes is
    left entirely as it was. *)
Theorem delete_out_of_range_keeps_records
    (st : state) (i : Z) (confirmed : bool) :
  (i < 0 \/ Z.of_nat (List.length (records st)) <= i)%Z ->
  handle (Delete i confirmed) st = Returned (handleDelete i confirmed st, [])
  /\ compact (records (handleDelete i confirmed st)) = compact (records st)
  /\ form (handleDelete i confirmed st) = form st
  /\ editingIndex (handleDelete i confirmed st) = editingIndex st
  /\ (Forall (fun s => s <> Hole) (records st) ->
      handleDelete i confirmed st = st).
Proof.
  intros H. destruct st as [f a ei]. cbn [records] in H. unfold handle.
  rewrite handleDelete_miss by exact H. cbn [records form editingIndex].
  split; [reflexivity|]. split; [|split; [|split]]; try reflexivity.
  - destruct confirmed; [apply compact_idem | reflexivity].
  - intros F. rewrite (compact_or_same a confirmed F). reflexivity.
Qed.

Lemma delete_out_of_range_keeps_records_witness :
  compact (records (handleDelete 7 true
             (mkState None [Elem emptyRecord; Hole; Elem []] (-1))))
  = [Elem emptyRecord; Elem []].
Proof.
  apply (delete_out_of_range_keeps_records
           (mkState None [Elem emptyRecord; Hole; Elem []] (-1)) 7 true).
  right. simpl. lia.
Defined.

(** C10, as it is worded, fails: in the collection that a submit at a
    stale position leaves, a record, a hole and a record, deleting at
    position 7 or at position -1 closes the hole up, so the collection is
    not what it was. *)
Lemma delete_out_of_range_closes_holes :
  let a : array record := [Elem emptyRecord; Hole; Elem emptyRecord] in
  let st := mkState (Some emptyRecord) a (-1) in
  (Z.of_nat (List.length a) <= 7)%Z
  /\ handle (Delete 7 true) st
     = Returned (mkState (Some emptyRecord)
                         [Elem emptyRecord; Elem emptyRecord] (-1), [])
  /\ records (handleDelete 7 true st) <> records st
  /\ records (handleDelete (-1) true st) <> records st.
Proof.
  cbv zeta. split; [simpl; lia|]. split; [vm_compute; reflexivity|].
  split; vm_compute; discriminate.
Qed.

(** C8.  With [editingIndex] a valid position [i], [handleSubmit] keeps
    the length of the collection, leaves the form at position [i], and
    every other position reads as it did. *)
Theorem update_replaces_in_place (st : state) (i : Z) :
  (0 <= i < Z.of_nat (List.length (records st)))%Z ->
  editingIndex st = i ->
  handle Submit st = Returned (handleSubmit st, [])
  /\ List.length (records (handleSubmit st)) = List.length (records st)
  /\ JsArray.get (records (handleSubmit st)) i = form st
  /\ (forall j, j <> i ->
        JsArray.get (records (handleSubmit st)) j = JsArray.get (records st) j).
Proof.
  intros H E. split; [reflexivity|].
  unfold handleSubmit. rewrite E.
  destruct (Z.leb_spec 0 i); [|lia]. cbn [records].
  split; [|split].
  - unfold JsArray.set. rewrite setNat_length, spread_length. lia.
  - apply get_set_at. lia.
  - intros j N. rewrite get_set_off by (auto; lia). apply get_spread.
Qed.

Lemma update_replaces_in_place_witness :
  JsArray.get
    (records (handleSubmit (mkState (Some emptyRecord) (dense [[]; []; []]) 1)))
    1 = Some emptyRecord.
Proof.
  apply (@update_replaces_in_place
           (mkState (Some emptyRecord) (dense [[]; []; []]) 1) 1).
  - simpl. lia.
  - reflexivity.
Defined.

(** *** Export and the advisory conditions *)




(** C4.  With an empty collection [downloadExcel] alerts "No records to
    export", writes nothing and leaves the state alone; [reconcile] of no
    rows is no records; and [importExcel] of no rows alerts "No data found
    in the Excel file." and leaves the state alone. *)
Theorem empty_inputs_are_reported
    (f : option record) (ei : Z) (st : state) :
  handle Download (mkState f [] ei)
  = Returned (mkState f [] ei, [Alert (js "No records to export")])
  /\ reconcile [] = Returned []
  /\ handle (Import []) st
     = Returned (st, [Alert (js "No data found in the Excel file.")]).
Proof. repeat split. Qed.

(** *** The invariant *)

(** C5.  In every state the component can reach from its initial state,
    by any sequence of its handlers (creating, updating and importing
    among them), every record of the collection has exactly the keys of
    the schema, in schema order: none is missing, none is extra. *)
Theorem records_conform (st : state) :
  reachable st ->
  forall rec, In (Elem rec) (records st) ->
    conforms rec
    /\ (forall k, hasOwnProperty rec k = true <-> In k FIELD_KEYS).
Proof.
  intros R rec Hin.
  destruct (reachable_invariant st R) as [_ F].
  rewrite Forall_forall in F. specialize (F _ Hin). simpl in F.
  split; [exact F | intros k; apply conforms_has, F].
Qed.

Lemma records_conform_witness :
  conforms (JsObject.set emptyRecord (js "name_of_the_block")
                         (VString (js "Kota"))).
Proof.
  pose (k := js "name_of_the_block").
  pose (st1 := handleChange k (js "Kota") initialState).
  pose (st2 := handleSubmit st1).
  assert (R1 : reachable st1).
  { apply (@reach_step initialState (Change k (js "Kota")) st1 []).
    - apply reach_init.
    - right; left. vm_compute. reflexivity.
    - reflexivity. }
  assert (R2 : reachable st2).
  { apply (@reach_step st1 Submit st2 []); [exact R1 | exact I | reflexivity]. }
  refine (proj1 (@records_conform st2 R2 _ _)).
  left. vm_compute. reflexivity.
Defined.

(** *** Keys *)

(** C6 (as the code has it).  For every label, [toKey] gives a key made
    of [a-z0-9] and single separators only, with no separator first or
    last and no two in a row; the key is non-empty exactly when the
    lower-cased label has a unit in [a-z0-9]. *)
Theorem toKey_shape (label : jsstring) :
  KeyShape.wellFormed (toKey label)
  /\ truthy (toKey label) = existsb Key.isAlnum (toLowerCase label).
Proof.
  split; [apply toKey_wellFormed|].
  rewrite (wellFormed_truthy _ (toKey_wellFormed label)).
  unfold toKey. rewrite stripSeps_alnum, replaceRuns_alnum. reflexivity.
Qed.

(** C6, as the specification words it, fails: the label "?" is not
    empty and its key is.  A label need not have an ASCII letter to get a
    key, though: the Kelvin sign lower-cases to "k". *)
Lemma toKey_of_punctuation_is_empty :
  js "?" <> [] /\ toKey (js "?") = [] /\ toKey (js "-- ?? --") = []
  /\ toKey [8490%N] = js "k".
Proof.
  split; [vm_compute; discriminate|].
  split; [|split]; vm_compute; reflexivity.
Qed.

(** C7.  [toKey] is a function of the label alone, so a label has one
    key; and applying [toKey] to one of its own results changes
    nothing. *)
Theorem toKey_idempotent (label : jsstring) :
  toKey (toKey label) = toKey label.
Proof. apply toKey_fixes, toKey_wellFormed. Qed.

(** C9.  The schema has 23 labels and their keys are pairwise
    distinct. *)
Theorem FIELD_KEYS_are_distinct :
  List.length FIELD_LABELS = 23
  /\ FIELD_KEYS = map toKey FIELD_LABELS
  /\ NoDup FIELD_KEYS.
Proof.
  split; [reflexivity|]. split; [reflexivity|]. apply FIELD_KEYS_NoDup.
Qed.

(* ================================================================== *)
(** ** Further properties of the component *)

(** Two objects with the same distinct keys and the same value under
    each are the same object. *)
Lemma obj_ext (o1 : obj) : forall o2 : obj,
  JsObject.keys o1 = JsObject.keys o2 ->
  NoDup (JsObject.keys o1) ->
  (forall k, In k (JsObject.keys o1) -> JsObject.get o1 k = JsObject.get o2 k) ->
  o1 = o2.
Proof.
  induction o1 as [|[k v] t IH]; intros [|[k' v'] t'] K ND G;
    try discriminate; [reflexivity|].
  simpl in K. injection K as -> K. simpl in ND. inversion ND as [|? ? Nin ND']; subst.
  assert (v = v').
  { specialize (G k' (or_introl eq_refl)). simpl in G.
    rewrite streq_refl in G. exact G. }
  subst v'. f_equal. apply IH; auto.
  intros k Hk. specialize (G k (or_intror Hk)). simpl in G.
  destruct (streq k' k) eqn:E; [|exact G].
  apply streq_true_iff in E; subst. contradiction.
Qed.

Lemma conforms_ext (a b : record) :
  conforms a -> conforms b ->
  map (JsObject.get a) FIELD_KEYS = map (JsObject.get b) FIELD_KEYS ->
  a = b.
Proof.
  intros Ca Cb M. apply obj_ext.
  - rewrite Ca, Cb; reflexivity.
  - rewrite Ca. apply FIELD_KEYS_NoDup.
  - rewrite Ca. intros k Hk.
    destruct (In_nth_error _ _ Hk) as [n Hn].
    assert (E : nth_error (map (JsObject.get a) FIELD_KEYS) n
                = nth_error (map (JsObject.get b) FIELD_KEYS) n) by (rewrite M; reflexivity).
    rewrite !nth_error_map, Hn in E. simpl in E. congruence.
Qed.

Lemma assignAll_cells r :
  map (JsObject.get (assignAll r)) FIELD_KEYS
  = map (Policy.resolve r) FIELD_LABELS.
Proof.
  unfold FIELD_KEYS. rewrite map_map. apply map_ext_in.
  intros label Hin. generalize (assignAll_policy r). rewrite Forall_forall.
  intros H; exact (H label Hin).
Qed.

Lemma key_is_not_the_method : ~ In (js "hasOwnProperty") FIELD_KEYS.
Proof.
  intros Hin.
  assert (E : existsb (streq (js "hasOwnProperty")) FIELD_KEYS = true).
  { apply existsb_exists. eexists. split; [exact Hin | apply streq_refl]. }
  vm_compute in E. discriminate.
Qed.

Lemma conforms_plain rec : conforms rec -> plainRow rec = true.
Proof.
  intros C. unfold plainRow. apply negb_true_iff.
  destruct (hasOwnProperty rec (js "hasOwnProperty")) eqn:E; [|reflexivity].
  apply (conforms_has rec _ C) in E. destruct (key_is_not_the_method E).
Qed.

Lemma sheetRow_plain rec : plainRow (sheetRow rec) = true.
Proof. vm_compute. reflexivity. Qed.

(** *** Export, then import *)

Lemma FIELD_LABELS_NoDup : NoDup FIELD_LABELS.
Proof. apply distinct_NoDup. vm_compute. reflexivity. Qed.

Lemma lookup_combine (ls : list jsstring) : forall (vs : list value) n l v,
  NoDup ls -> nth_error ls n = Some l -> nth_error vs n = Some v ->
  Policy.lookup (combine ls vs) l = Some v.
Proof.
  unfold Policy.lookup.
  induction ls as [|l0 t IH]; intros vs n l v ND Hl Hv; [destruct n; discriminate|].
  destruct vs as [|v0 vs]; [destruct n; discriminate|].
  inversion ND as [|? ? Nin ND']; subst. destruct n as [|n]; simpl in *.
  - injection Hl as ->. injection Hv as ->. rewrite streq_refl. reflexivity.
  - destruct (streq l0 l) eqn:E.
    + apply streq_true_iff in E; subst. apply nth_error_In in Hl. contradiction.
    + eapply IH; eauto.
Qed.

Lemma resolve_sheetRow rec :
  map (Policy.resolve (sheetRow rec)) FIELD_LABELS
  = map (JsObject.get rec) FIELD_KEYS.
Proof.
  apply nth_error_ext. intros n. rewrite !nth_error_map.
  destruct (nth_error FIELD_LABELS n) as [l|] eqn:Hl.
  - assert (Hk : nth_error FIELD_KEYS n = Some (toKey l)).
    { unfold FIELD_KEYS. rewrite nth_error_map, Hl. reflexivity. }
    rewrite Hk. simpl. f_equal. unfold Policy.resolve, sheetRow.
    rewrite (lookup_combine FIELD_LABELS (map (JsObject.get rec) FIELD_KEYS)
               n l (JsObject.get rec (toKey l)) FIELD_LABELS_NoDup Hl).
    + reflexivity.
    + rewrite nth_error_map, Hk. reflexivity.
  - assert (Hk : nth_error FIELD_KEYS n = None).
    { unfold FIELD_KEYS. rewrite nth_error_map, Hl. reflexivity. }
    rewrite Hk. reflexivity.
Qed.

Lemma export_then_import_cells (rec : record) :
  map (JsObject.get (assignAll (sheetRow rec))) FIELD_KEYS
  = map (JsObject.get rec) FIELD_KEYS.
Proof. rewrite assignAll_cells. apply resolve_sheetRow. Qed.

Lemma sheetRow_back (rec : record) :
  conforms rec -> reconcileRow (sheetRow rec) = Returned rec.
Proof.
  intros C. rewrite (reconcileRow_plain _ (sheetRow_plain rec)). f_equal.
  apply conforms_ext;
    [apply assignAll_conforms | exact C | apply export_then_import_cells].
Qed.

(** X1.  Export, then import: the rows [downloadExcel] builds for a
    collection of records that have exactly the schema's keys, given to
    the import mapping as they are, come back as the same records in the
    same order. *)
Theorem export_import_round_trip (rs : list record) :
  Forall conforms rs -> reconcile (map sheetRow rs) = Returned rs.
Proof.
  induction 1 as [|rec t C _ IH]; [reflexivity|].
  cbn [map]. rewrite reconcile_cons, (sheetRow_back _ C), IH. reflexivity.
Qed.

Lemma export_import_round_trip_witness :
  reconcile (map sheetRow
               [emptyRecord;
                JsObject.set emptyRecord (js "month") (VNumber 5)])
  = Returned [emptyRecord;
              JsObject.set emptyRecord (js "month") (VNumber 5)].
Proof.
  apply export_import_round_trip.
  constructor; [apply emptyRecord_conforms|].
  constructor; [|constructor].
  apply conforms_set; [apply emptyRecord_conforms|].
  left. vm_compute. reflexivity.
Defined.

(** *** Import *)

Lemma labels_are_not_keys :
  forallb (fun l => negb (existsb (streq l) FIELD_KEYS)) FIELD_LABELS = true.
Proof. vm_compute. reflexivity. Qed.

Lemma resolve_by_key (rec : record) label :
  conforms rec -> In label FIELD_LABELS ->
  Policy.resolve rec label = JsObject.get rec (toKey label).
Proof.
  intros C Hin. unfold Policy.resolve.
  assert (L1 : Policy.lookup rec label = None).
  { generalize (lookup_hasOwnProperty rec label).
    destruct (Policy.lookup rec label); [|reflexivity].
    intros H. apply (conforms_has rec label C) in H.
    generalize labels_are_not_keys. rewrite forallb_forall. intros A.
    specialize (A label Hin). apply negb_true_iff in A.
    assert (existsb (streq label) FIELD_KEYS = true); [|congruence].
    apply existsb_exists. exists label. split; [exact H | apply streq_refl]. }
  rewrite L1.
  assert (Hk : hasOwnProperty rec (toKey label) = true).
  { apply (conforms_has rec _ C). unfold FIELD_KEYS. apply in_map, Hin. }
  rewrite lookup_hasOwnProperty in Hk.
  destruct (Policy.lookup rec (toKey label)) as [v|] eqn:L2; [|discriminate].
  symmetry. apply lookup_get, L2.
Qed.

Lemma conforming_row_is_fixed (rec : record) :
  conforms rec -> reconcileRow rec = Returned rec.
Proof.
  intros C. rewrite (reconcileRow_plain _ (conforms_plain _ C)). f_equal.
  apply conforms_ext; [apply assignAll_conforms | exact C |].
  rewrite assignAll_cells. unfold FIELD_KEYS. rewrite map_map.
  apply map_ext_in. intros label Hin. apply resolve_by_key; assumption.
Qed.

Lemma reconcileRow_returns_conforming r rec :
  reconcileRow r = Returned rec -> conforms rec.
Proof.
  rewrite reconcileRow_cases. destruct (plainRow r); [|discriminate].
  intros [= <-]. apply assignAll_conforms.
Qed.

(** X2.  A row whose headers are the machine keys themselves, each once
    and in schema order, is imported unchanged: the second tier picks
    every value. *)
Theorem import_by_keys_is_identity (rec : record) :
  conforms rec -> reconcileRow rec = Returned rec.
Proof. apply conforming_row_is_fixed. Qed.

Lemma import_by_keys_is_identity_witness :
  reconcileRow (JsObject.set emptyRecord (js "month") (VString (js "May")))
  = Returned (JsObject.set emptyRecord (js "month") (VString (js "May"))).
Proof.
  apply import_by_keys_is_identity.
  apply conforms_set; [apply emptyRecord_conforms|].
  left. vm_compute. reflexivity.
Defined.

(** X13.  Importing what the import produced changes nothing: whenever
    the import makes a record of a row, that record, read as a row again,
    is imported as itself. *)
Theorem reconcileRow_idempotent (r : row) (rec : record) :
  reconcileRow r = Returned rec -> reconcileRow rec = Returned rec.
Proof.
  intros H. apply conforming_row_is_fixed.
  exact (reconcileRow_returns_conforming r rec H).
Qed.

Lemma reconcileRow_idempotent_witness :
  reconcileRow (assignAll [(js "NAME OF THE BLOCK", VString (js "Kota"))])
  = Returned (assignAll [(js "NAME OF THE BLOCK", VString (js "Kota"))]).
Proof.
  apply (reconcileRow_idempotent
           [(js "NAME OF THE BLOCK", VString (js "Kota"))]).
  apply reconcileRow_plain. reflexivity.
Defined.

Lemma unmatched_unfold (r : row) label :
  forallb (fun h => negb (matchesSchema h)) (JsObject.keys r) = true ->
  In label FIELD_LABELS ->
  forall h, In h (JsObject.keys r) ->
    streq h label = false /\ streq h (toKey label) = false
    /\ sameHeader label h = false.
Proof.
  rewrite forallb_forall. intros U Hin h Hh.
  specialize (U h Hh). apply negb_true_iff in U. unfold matchesSchema in U.
  assert (A : (streq h label || streq h (toKey label) || sameHeader label h)
              = false).
  { destruct (streq h label || streq h (toKey label) || sameHeader label h) eqn:E;
      [|reflexivity].
    assert (existsb (fun label => streq h label || streq h (toKey label)
                                  || sameHeader label h) FIELD_LABELS = true);
      [|congruence].
    apply existsb_exists. exists label. auto. }
  apply orb_false_iff in A as [A A3]. apply orb_false_iff in A as [A1 A2]. auto.
Qed.

Lemma lookup_none (r : row) k :
  (forall h, In h (JsObject.keys r) -> streq h k = false) ->
  Policy.lookup r k = None.
Proof.
  unfold Policy.lookup. induction r as [|[h v] t IH]; intros H; [reflexivity|].
  simpl. rewrite (H h (or_introl eq_refl)). apply IH.
  intros h' Hh'. apply H. right; exact Hh'.
Qed.

(** X3.  A row none of whose headers is accepted by any field, under any
    of the three tiers, and which has no column headed "hasOwnProperty",
    is still imported, as the record whose every field is the empty
    string. *)
Theorem import_unmatched_row_is_empty (r : row) :
  plainRow r = true ->
  forallb (fun h => negb (matchesSchema h)) (JsObject.keys r) = true ->
  reconcileRow r = Returned emptyRecord.
Proof.
  intros P U. rewrite (reconcileRow_plain _ P). f_equal.
  apply conforms_ext;
    [apply assignAll_conforms | apply emptyRecord_conforms |].
  rewrite assignAll_cells. unfold FIELD_KEYS. rewrite map_map.
  apply map_ext_in. intros label Hin.
  rewrite emptyRecord_get by (unfold FIELD_KEYS; apply in_map, Hin).
  unfold Policy.resolve.
  rewrite (lookup_none r label)
    by (intros h Hh; apply (unmatched_unfold r label U Hin h Hh)).
  rewrite (lookup_none r (toKey label))
    by (intros h Hh; apply (unmatched_unfold r label U Hin h Hh)).
  rewrite firstNormalized_sameHeader.
  destruct (find _ r) as [[h v]|] eqn:F; [|reflexivity].
  apply find_some in F. destruct F as [Hin' S]. cbn [fst] in S.
  assert (Hh : In h (JsObject.keys r)).
  { unfold JsObject.keys. apply in_map_iff. exists (h, v). auto. }
  destruct (unmatched_unfold r label U Hin h Hh) as (_ & _ & N).
  congruence.
Qed.

Lemma import_unmatched_row_is_empty_witness :
  reconcileRow [(js "District", VString (js "Kota")); (js "Year", VNumber 2025)]
  = Returned emptyRecord.
Proof.
  apply import_unmatched_row_is_empty; vm_compute; reflexivity.
Defined.

(** X4.  Importing a sheet with at least one row, none of which has a
    column headed "hasOwnProperty", into a collection of records appends
    one record per row, in row order, after the records already there,
    changes neither the form nor the editing position, and announces the
    number of rows. *)
Theorem import_appends_in_order
    (json : list row) (rs : list record) (f : option record) (ei : Z) :
  json <> [] -> forallb plainRow json = true ->
  exists mapped,
    reconcile json = Returned mapped
    /\ handle (Import json) (mkState f (dense rs) ei)
       = Returned (mkState f (dense (rs ++ mapped)) ei,
                   [Alert (js "Imported " ++ ofNat (List.length json)
                           ++ js " rows.")])
    /\ List.length (rs ++ mapped) = List.length rs + List.length json
    /\ (forall n r, nth_error json n = Some r ->
          exists rec, reconcileRow r = Returned rec
                      /\ nth_error (rs ++ mapped) (List.length rs + n)
                         = Some rec).
Proof.
  intros N P. exists (map assignAll json).
  split; [apply reconcile_plain, P|]. split; [|split].
  - unfold handle, importExcel. destruct json as [|r0 t]; [congruence|].
    cbn [List.length Nat.eqb]. rewrite (reconcile_plain _ P).
    cbn [bind records form editingIndex].
    rewrite spread_dense. unfold dense. rewrite map_app, length_map.
    reflexivity.
  - rewrite length_app, length_map. reflexivity.
  - intros n r Hn. exists (assignAll r). split.
    + apply reconcileRow_plain. rewrite forallb_forall in P. apply P.
      eapply nth_error_In; eauto.
    + rewrite nth_error_app2 by lia.
      replace (List.length rs + n - List.length rs) with n by lia.
      rewrite nth_error_map, Hn. reflexivity.
Qed.

Lemma import_appends_in_order_witness :
  exists mapped,
    handle (Import [[(js "month", VString (js "May"))]; []])
           (mkState None (dense [emptyRecord]) (-1))
    = Returned (mkState None (dense ([emptyRecord] ++ mapped)) (-1),
                [Alert (js "Imported " ++ ofNat 2 ++ js " rows.")]).
Proof.
  destruct (import_appends_in_order
              [[(js "month", VString (js "May"))]; []] [emptyRecord] None (-1)
              ltac:(discriminate) eq_refl) as (mapped & _ & H & _).
  exists mapped. exact H.
Defined.

(** X15.  A sheet one of whose rows has a column headed "hasOwnProperty"
    is not imported at all: the import throws a [TypeError] at that row,
    before anything is appended or announced. *)
Theorem import_throws_on_shadowed_method (json : list row) (st : state) :
  forallb plainRow json = false ->
  reconcile json = Threw TypeError
  /\ handle (Import json) st = Threw TypeError.
Proof.
  intros P.
  assert (R : reconcile json = Threw TypeError) by (apply reconcile_shadowed, P).
  split; [exact R|]. unfold handle, importExcel.
  destruct json as [|r0 t]; [discriminate P|].
  cbn [List.length Nat.eqb]. rewrite R. reflexivity.
Qed.

Lemma import_throws_on_shadowed_method_witness :
  handle (Import [[(js "Name of the Block", VString (js "Kota"))];
                  [(js "hasOwnProperty", VBoolean true)]])
         initialState
  = Threw TypeError.
Proof.
  apply (import_throws_on_shadowed_method
           [[(js "Name of the Block", VString (js "Kota"))];
            [(js "hasOwnProperty", VBoolean true)]] initialState).
  reflexivity.
Defined.

(** *** The record store *)

(** X5.  A confirmed delete at a valid position of a collection of
    records removes exactly that record: the length drops by one, the
    records before it stay, the ones after it move down by one.  The form
    and the editing position are not touched. *)
Theorem delete_removes_one
    (rs : list record) (f : option record) (ei : Z) (n : nat) :
  n < List.length rs ->
  handle (Delete (Z.of_nat n) true) (mkState f (dense rs) ei)
  = Returned (mkState f (dense (firstn n rs ++ skipn (S n) rs)) ei, [])
  /\ S (List.length (firstn n rs ++ skipn (S n) rs)) = List.length rs
  /\ (forall m, m < n ->
        nth_error (firstn n rs ++ skipn (S n) rs) m = nth_error rs m)
  /\ (forall m, n <= m ->
        nth_error (firstn n rs ++ skipn (S n) rs) m = nth_error rs (S m)).
Proof.
  intros H. split; [|split; [|split]].
  - unfold handle, handleDelete. cbn [negb form records editingIndex].
    unfold JsArray.filter.
    rewrite <- (filterFrom_dense_hit rs n 0 H). reflexivity.
  - rewrite length_app, length_firstn, length_skipn. lia.
  - intros m Hm. rewrite nth_error_app1 by (rewrite length_firstn; lia).
    rewrite nth_error_firstn. destruct (Nat.ltb_spec m n); [reflexivity | lia].
  - intros m Hm. rewrite nth_error_app2 by (rewrite length_firstn; lia).
    rewrite length_firstn, nth_error_skipn.
    f_equal. lia.
Qed.

Lemma delete_removes_one_witness :
  handle (Delete 1 true)
         (mkState None (dense [[]; emptyRecord; []]) (-1))
  = Returned (mkState None (dense [[]; []]) (-1), []).
Proof.
  apply (delete_removes_one [[]; emptyRecord; []] None (-1) 1). simpl. lia.
Defined.

(** X6.  Submitting while no record is being edited appends the form to
    a collection of records, after all the others and leaving them as
    they were, and puts a fresh all-empty record in the form. *)
Theorem create_appends
    (rs : list record) (f : record) (ei : Z) :
  (ei < 0)%Z ->
  handle Submit (mkState (Some f) (dense rs) ei)
  = Returned (mkState (Some emptyRecord) (dense (rs ++ [f])) ei, []).
Proof.
  intros H. unfold handle. rewrite handleSubmit_negative by exact H.
  rewrite emptyRecord_spread, spread_dense. unfold dense.
  rewrite map_app. reflexivity.
Qed.

Lemma create_appends_witness :
  handle Submit (mkState (Some emptyRecord) (dense [[]]) (-1))
  = Returned (mkState (Some emptyRecord) (dense ([[]] ++ [emptyRecord])) (-1),
              []).
Proof. apply create_appends. lia. Defined.

(** X7.  Pressing Edit on a record and submitting without a change puts
    the same record back where it was: every record stays in its place,
    the form is fresh and nothing is being edited any more.  The
    collection comes back as its own spread, so any hole in it has become
    [undefined]; without holes it is exactly as before. *)
Theorem edit_then_submit_restores (st : state) (i : Z) (rec : record) :
  JsArray.get (records st) i = Some rec ->
  handleSubmit (handleEdit i st)
  = mkState (Some emptyRecord) (JsArray.spread (records st)) (-1)
  /\ (Forall (fun s => s <> Hole) (records st) ->
      handleSubmit (handleEdit i st)
      = mkState (Some emptyRecord) (records st) (-1)).
Proof.
  intros G.
  assert (E : handleSubmit (handleEdit i st)
              = mkState (Some emptyRecord) (JsArray.spread (records st)) (-1)).
  { unfold handleEdit, handleSubmit. cbn [form records editingIndex].
    rewrite G. unfold JsArray.get in G.
    destruct (Z.ltb_spec i 0) as [|Hi]; [discriminate|].
    destruct (Z.leb_spec 0 i); [|lia].
    rewrite emptyRecord_spread. f_equal.
    unfold JsArray.set. apply setNat_keeps. cbn [store].
    apply nth_error_spread_elem.
    destruct (nth_error (records st) (Z.to_nat i)) as [[| |x]|];
      try discriminate.
    cbn [read] in G. congruence. }
  split; [exact E|]. intros F. rewrite E, (spread_full _ F). reflexivity.
Qed.

Lemma edit_then_submit_restores_witness :
  handleSubmit
    (handleEdit 2 (mkState None [Elem []; Hole; Elem emptyRecord] (-1)))
  = mkState (Some emptyRecord) [Elem []; Undef; Elem emptyRecord] (-1).
Proof.
  apply (edit_then_submit_restores
           (mkState None [Elem []; Hole; Elem emptyRecord] (-1)) 2 emptyRecord).
  reflexivity.
Defined.

(** X8.  Typing into the input of one field changes that field of the
    form and nothing else: the form keeps exactly the schema's keys, the
    other fields keep their values, and the collection and the editing
    position are not touched. *)
Theorem change_sets_one_field
    (st : state) (f : record) (name value : jsstring) :
  form st = Some f -> conforms f -> In name FIELD_KEYS ->
  form (handleChange name value st)
  = Some (JsObject.set f name (VString value))
  /\ conforms (JsObject.set f name (VString value))
  /\ JsObject.get (JsObject.set f name (VString value)) name = VString value
  /\ (forall k, k <> name ->
        JsObject.get (JsObject.set f name (VString value)) k
        = JsObject.get f k)
  /\ records (handleChange name value st) = records st
  /\ editingIndex (handleChange name value st) = editingIndex st.
Proof.
  intros Ef C Hin. unfold handleChange. cbn [form records editingIndex].
  rewrite Ef. unfold spreadOpt. rewrite (conforms_spread _ C).
  repeat split.
  - apply conforms_set; assumption.
  - apply get_set_same.
  - intros k N. apply get_set_other. congruence.
Qed.

Lemma change_sets_one_field_witness :
  form (handleChange (js "month") (js "May") initialState)
  = Some (JsObject.set emptyRecord (js "month") (VString (js "May"))).
Proof.
  apply (change_sets_one_field initialState emptyRecord (js "month") (js "May")).
  - unfold initialState. cbn [form]. rewrite emptyRecord_spread. reflexivity.
  - apply emptyRecord_conforms.
  - left. vm_compute. reflexivity.
Defined.

Lemma reach_one st e :
  reachable st -> enabled st e ->
  forall st', handle e st = Returned (st', []) -> reachable st'.
Proof. intros R En st' H. exact (@reach_step st e st' [] R En H). Qed.

(** X9.  In every state the component can reach, the form is a record,
    never [undefined], and it has exactly the schema's keys: the inputs
    rendered from it always find their value. *)
Theorem form_always_conforms (st : state) :
  reachable st -> exists f, form st = Some f /\ conforms f.
Proof. intros R. exact (proj1 (reachable_invariant st R)). Qed.

Lemma form_always_conforms_witness :
  exists f,
    form (handleEdit 0
            (handleSubmit (handleChange (js "month") (js "May") initialState)))
    = Some f
    /\ conforms f.
Proof.
  apply form_always_conforms.
  pose (s1 := handleChange (js "month") (js "May") initialState).
  pose (s2 := handleSubmit s1).
  apply (reach_one s2 (Edit 0)); [| | reflexivity].
  - apply (reach_one s1 Submit); [| exact I | reflexivity].
    apply (reach_one initialState (Change (js "month") (js "May")));
      [apply reach_init | | reflexivity].
    left. vm_compute. reflexivity.
  - eexists. vm_compute. reflexivity.
Defined.

(** *** Holes *)

Lemma filterFrom_no_hole {A} (p : option A -> Z -> bool) idx (a : array A) :
  ~ In Hole (filterFrom p idx a).
Proof.
  revert idx; induction a as [|x t IH]; intros idx; simpl; [tauto|].
  destruct x; try apply IH;
    (destruct (p _ idx); [|apply IH]; simpl; intros [E|E];
     [discriminate | exact (IH _ E)]).
Qed.

(** X10.  After a confirmed delete the collection has no hole, whatever
    it was before and whatever position was given: [filter] drops the
    holes along with the record. *)
Theorem delete_drops_holes (st : state) (i : Z) :
  Forall (fun s => s <> Hole) (records (handleDelete i true st)).
Proof.
  apply Forall_forall. intros s Hin E. subst s.
  unfold handleDelete in Hin. cbn [negb records] in Hin.
  exact (filterFrom_no_hole _ _ _ Hin).
Qed.

Lemma mapArray_undefined (a : array record) :
  In Undef a -> mapArray exportRow a = Threw TypeError.
Proof.
  induction a as [|x t IH]; [intros []|].
  intros [E|Hin].
  - subst x. cbn [mapArray read]. rewrite exportRow_undefined. reflexivity.
  - destruct x as [| |rec].
    + cbn [mapArray]. rewrite (IH Hin). reflexivity.
    + cbn [mapArray read]. rewrite exportRow_undefined. reflexivity.
    + rewrite mapArray_cons_elem, exportRow_sheetRow, (IH Hin). reflexivity.
Qed.

(** X11.  If some position of the collection holds [undefined],
    "Download Excel" throws a [TypeError] and writes no file. *)
Theorem download_throws_on_undefined (st : state) :
  In Undef (records st) ->
  downloadExcel st = Threw TypeError
  /\ handle Download st = Threw TypeError.
Proof.
  intros H.
  assert (D : downloadExcel st = Threw TypeError).
  { unfold downloadExcel. destruct (records st) as [|x t] eqn:E; [destruct H|].
    cbn [List.length Nat.eqb]. rewrite (mapArray_undefined _ H). reflexivity. }
  split; [exact D|]. unfold handle. rewrite D. reflexivity.
Qed.

Lemma download_throws_on_undefined_witness :
  downloadExcel (mkState None [Elem emptyRecord; Undef] (-1)) = Threw TypeError.
Proof.
  apply (download_throws_on_undefined
           (mkState None [Elem emptyRecord; Undef] (-1))).
  right; left; reflexivity.
Defined.

Lemma handleDelete_first (r0 : record) (rs : list record) f ei :
  handleDelete 0 true (mkState f (dense (r0 :: rs)) ei)
  = mkState f (dense rs) ei.
Proof.
  unfold handleDelete. cbn [negb form records editingIndex].
  unfold JsArray.filter.
  pose proof (@filterFrom_dense_hit record (r0 :: rs) 0 0) as P.
  change (0 + Z.of_nat 0)%Z with 0%Z in P.
  rewrite P by (cbn [List.length]; lia). reflexivity.
Qed.

(** X12.  The editing position is not adjusted by deletes.  Press Edit on
    the last of at least three records, delete the first record twice,
    and submit: the form is stored at the old position, which by now
    lies past the end, so the collection ends with a hole followed by the
    submitted record.  Every step is one the page offers, so such a
    collection is reachable whenever the starting one is. *)
Theorem stale_edit_leaves_a_hole
    (st : state) (r0 r1 r : record) (rs : list record) :
  records st = dense (r0 :: r1 :: rs ++ [r]) ->
  let n := Z.of_nat (S (S (List.length rs))) in
  let st' := handleSubmit
               (handleDelete 0 true (handleDelete 0 true (handleEdit n st))) in
  records st' = dense (rs ++ [r]) ++ [Hole; Elem r]
  /\ (reachable st -> reachable st').
Proof.
  intros E n st'. destruct st as [f a ei]. cbn [records] in E. subst a.
  assert (G : JsArray.get (dense (r0 :: r1 :: rs ++ [r])) n = Some r).
  { rewrite get_dense. unfold n.
    destruct (Z.ltb_spec (Z.of_nat (S (S (List.length rs)))) 0); [lia|].
    rewrite Nat2Z.id. cbn [nth_error].
    rewrite nth_error_app2 by lia. rewrite Nat.sub_diag. reflexivity. }
  assert (S1 : handleEdit n (mkState f (dense (r0 :: r1 :: rs ++ [r])) ei)
               = mkState (Some r) (dense (r0 :: r1 :: rs ++ [r])) n).
  { unfold handleEdit. cbn [form records editingIndex]. rewrite G. reflexivity. }
  assert (S3 : handleDelete 0 true (handleDelete 0 true
                 (handleEdit n (mkState f (dense (r0 :: r1 :: rs ++ [r])) ei)))
               = mkState (Some r) (dense (rs ++ [r])) n).
  { rewrite S1, !handleDelete_first. reflexivity. }
  assert (R : records st' = dense (rs ++ [r]) ++ [Hole; Elem r]).
  { unfold st'. rewrite S3. rewrite handleSubmit_stale.
    - rewrite spread_dense, dense_length, length_app. cbn [List.length].
      unfold n. rewrite Nat2Z.id.
      replace (S (S (List.length rs)) - (List.length rs + 1)) with 1 by lia.
      reflexivity.
    - rewrite dense_length, length_app. cbn [List.length]. unfold n. lia. }
  split; [exact R|]. intros R0.
  unfold st'.
  apply (reach_one (handleDelete 0 true (handleDelete 0 true
           (handleEdit n (mkState f (dense (r0 :: r1 :: rs ++ [r])) ei)))) Submit);
    [| exact I | reflexivity].
  apply (reach_one (handleDelete 0 true
           (handleEdit n (mkState f (dense (r0 :: r1 :: rs ++ [r])) ei)))
           (Delete 0 true)); [| | reflexivity].
  - apply (reach_one (handleEdit n (mkState f (dense (r0 :: r1 :: rs ++ [r])) ei))
             (Delete 0 true)); [| | reflexivity].
    + apply (reach_one (mkState f (dense (r0 :: r1 :: rs ++ [r])) ei) (Edit n));
        [exact R0 | | reflexivity].
      exists r. exact G.
    + rewrite S1. exists r0. reflexivity.
  - rewrite S1, handleDelete_first. exists r1. reflexivity.
Qed.

Lemma stale_edit_leaves_a_hole_witness :
  exists st, reachable st /\ In Hole (records st).
Proof.
  pose (s1 := handleSubmit initialState).
  pose (s2 := handleSubmit s1).
  pose (s3 := handleSubmit s2).
  assert (R3 : reachable s3).
  { apply (reach_one s2 Submit); [| exact I | reflexivity].
    apply (reach_one s1 Submit); [| exact I | reflexivity].
    apply (reach_one initialState Submit); [apply reach_init | exact I | reflexivity]. }
  assert (E3 : records s3 = dense (emptyRecord :: emptyRecord :: [] ++ [emptyRecord])).
  { vm_compute. reflexivity. }
  destruct (stale_edit_leaves_a_hole s3 emptyRecord emptyRecord emptyRecord [] E3)
    as [E R].
  eexists. split; [exact (R R3)|]. rewrite E. right; left. reflexivity.
Defined.

(** *** Header comparison of the third tier *)

Lemma white_listed c : isWhiteSpace c = true -> In c whiteSpaceUnits.
Proof.
  unfold isWhiteSpace. rewrite !orb_true_iff, !andb_true_iff.
  rewrite !N.leb_le, !N.eqb_eq. intros H. unfold whiteSpaceUnits.
  cbn [In]. lia.
Qed.

Lemma white_inert c : isWhiteSpace c = true -> inert c = true.
Proof.
  intros H. apply white_listed in H.
  assert (A : forallb inert whiteSpaceUnits = true) by (vm_compute; reflexivity).
  rewrite forallb_forall in A. exact (A c H).
Qed.

Lemma inert_parts c :
  inert c = true ->
  isHighSurrogate c = false /\ isLowSurrogate c = false
  /\ (c <? 65536)%N = true /\ (c =? 931)%N = false /\ (c =? 304)%N = false
  /\ lowerPoint c = c /\ isCased c = false.
Proof.
  unfold inert. rewrite !andb_true_iff, !negb_true_iff, N.eqb_eq. tauto.
Qed.

Section Padding.

Variable w : jsstring.
Hypothesis white : forallb isWhiteSpace w = true.

Lemma white_In c : In c w -> inert c = true.
Proof.
  intros Hin. apply white_inert.
  rewrite forallb_forall in white. exact (white c Hin).
Qed.

Lemma codePoints_white_alone : forall v, incl v w -> codePoints v = v.
Proof.
  induction v as [|c t IH]; intros Hi; [reflexivity|].
  cbn [codePoints].
  destruct (inert_parts c (white_In c (Hi c (or_introl eq_refl))))
    as (H & _).
  rewrite H, IH; [reflexivity|]. intros x Hx. apply Hi. right; exact Hx.
Qed.

Lemma codePoints_white_left s : codePoints (w ++ s) = w ++ codePoints s.
Proof.
  assert (G : forall v, incl v w -> codePoints (v ++ s) = v ++ codePoints s).
  { induction v as [|c t IH]; intros Hi; [reflexivity|].
    cbn [app codePoints].
    destruct (inert_parts c (white_In c (Hi c (or_introl eq_refl))))
      as (H & _).
    rewrite H, IH; [reflexivity|]. intros x Hx. apply Hi. right; exact Hx. }
  apply G, incl_refl.
Qed.

Lemma codePoints_two h l t :
  codePoints (h :: l :: t) =
  if isHighSurrogate h then
    (if isLowSurrogate l
     then (65536 + (h - 55296) * 1024 + (l - 56320))%N :: codePoints t
     else h :: codePoints (l :: t))
  else h :: codePoints (l :: t).
Proof. reflexivity. Qed.

Lemma codePoints_white_after h : forall v,
  incl v w -> codePoints (h :: v) = h :: v.
Proof.
  intros v Hi. cbn [codePoints]. destruct (isHighSurrogate h).
  - destruct v as [|x v']; [reflexivity|].
    assert (Hx : isLowSurrogate x = false).
    { apply (inert_parts x). apply white_In. apply Hi. left; reflexivity. }
    rewrite Hx, (codePoints_white_alone _ Hi). reflexivity.
  - rewrite (codePoints_white_alone _ Hi). reflexivity.
Qed.

Lemma codePoints_white_right s : codePoints (s ++ w) = codePoints s ++ w.
Proof.
  assert (G : forall n s, List.length s <= n ->
                codePoints (s ++ w) = codePoints s ++ w).
  { induction n as [|n IH]; intros [|h t] L; cbn [List.length] in L;
      try lia; try (apply codePoints_white_alone, incl_refl).
    destruct t as [|l t'].
    - cbn [app]. rewrite (codePoints_white_after h w (incl_refl w)).
      cbn [codePoints]. destruct (isHighSurrogate h); reflexivity.
    - cbn [List.length] in L. cbn [app]. rewrite !codePoints_two.
      change (l :: t' ++ w) with ((l :: t') ++ w).
      rewrite (IH t') by lia. rewrite (IH (l :: t')) by (cbn [List.length]; lia).
      destruct (isHighSurrogate h); [destruct (isLowSurrogate l)|];
        reflexivity. }
  intros. apply (G (List.length s)). lia.
Qed.

Lemma nextIsCased_white_alone : forall v, incl v w -> nextIsCased v = false.
Proof.
  induction v as [|c t IH]; intros Hi; [reflexivity|].
  cbn [nextIsCased]. rewrite IH by (intros x Hx; apply Hi; right; exact Hx).
  destruct (inert_parts c (white_In c (Hi c (or_introl eq_refl))))
    as (_ & _ & _ & _ & _ & _ & H).
  rewrite H. destruct (isCaseIgnorable c); reflexivity.
Qed.

Lemma nextIsCased_white l : nextIsCased (l ++ w) = nextIsCased l.
Proof.
  induction l as [|c t IH]; cbn [app nextIsCased].
  - apply nextIsCased_white_alone, incl_refl.
  - rewrite IH. reflexivity.
Qed.

Lemma nextIsCased_white_rev l : nextIsCased (l ++ rev w) = nextIsCased l.
Proof.
  induction l as [|c t IH]; cbn [app nextIsCased].
  - assert (G : forall v, incl v w -> nextIsCased v = false)
      by apply nextIsCased_white_alone.
    apply G. intros x Hx. apply in_rev. exact Hx.
  - rewrite IH. reflexivity.
Qed.

Lemma lowerAt_inert before c after : inert c = true -> lowerAt before c after = [c].
Proof.
  intros I. destruct (inert_parts c I) as (_ & _ & _ & S & D & L & _).
  unfold lowerAt. rewrite S, D, L. reflexivity.
Qed.

Lemma lowerPoints_white_alone : forall v before,
  incl v w -> lowerPoints before v = v.
Proof.
  induction v as [|c t IH]; intros before Hi; [reflexivity|].
  cbn [lowerPoints].
  rewrite (lowerAt_inert _ _ _ (white_In c (Hi c (or_introl eq_refl)))).
  rewrite IH; [reflexivity|]. intros x Hx. apply Hi. right; exact Hx.
Qed.

(** White space at the far end of what comes before changes nothing. *)
Lemma lowerPoints_before_white s : forall before,
  lowerPoints (before ++ rev w) s = lowerPoints before s.
Proof.
  induction s as [|c t IH]; intros before; [reflexivity|].
  cbn [lowerPoints]. change (c :: before ++ rev w) with ((c :: before) ++ rev w).
  rewrite IH. f_equal. unfold lowerAt. rewrite nextIsCased_white_rev.
  reflexivity.
Qed.

Lemma lowerPoints_white_left s :
  lowerPoints [] (w ++ s) = w ++ lowerPoints [] s.
Proof.
  assert (G : forall v before, incl v w ->
                lowerPoints before (v ++ s)
                = v ++ lowerPoints (rev v ++ before) s).
  { induction v as [|c t IH]; intros before Hi; [reflexivity|].
    cbn [app lowerPoints rev].
    rewrite (lowerAt_inert _ _ _ (white_In c (Hi c (or_introl eq_refl)))).
    rewrite IH by (intros x Hx; apply Hi; right; exact Hx).
    rewrite <- app_assoc. reflexivity. }
  rewrite (G w [] (incl_refl w)), app_nil_r.
  f_equal. exact (lowerPoints_before_white s []).
Qed.

Lemma lowerPoints_white_right s : forall before,
  lowerPoints before (s ++ w) = lowerPoints before s ++ w.
Proof.
  induction s as [|c t IH]; intros before; cbn [app lowerPoints].
  - apply lowerPoints_white_alone, incl_refl.
  - rewrite IH, <- app_assoc. f_equal. unfold lowerAt.
    rewrite nextIsCased_white. reflexivity.
Qed.

Lemma codeUnits_white : forall v, incl v w -> codeUnits v = v.
Proof.
  unfold codeUnits. induction v as [|c t IH]; intros Hi; [reflexivity|].
  cbn [flat_map]. rewrite IH by (intros x Hx; apply Hi; right; exact Hx).
  destruct (inert_parts c (white_In c (Hi c (or_introl eq_refl))))
    as (_ & _ & H & _).
  unfold utf16. rewrite H. reflexivity.
Qed.

Lemma codeUnits_app a b : codeUnits (a ++ b) = codeUnits a ++ codeUnits b.
Proof. apply flat_map_app. Qed.

Lemma toLowerCase_white_left s : toLowerCase (w ++ s) = w ++ toLowerCase s.
Proof.
  unfold toLowerCase.
  rewrite codePoints_white_left, lowerPoints_white_left, codeUnits_app.
  f_equal. exact (codeUnits_white w (incl_refl w)).
Qed.

Lemma toLowerCase_white_right s : toLowerCase (s ++ w) = toLowerCase s ++ w.
Proof.
  unfold toLowerCase.
  rewrite codePoints_white_right, lowerPoints_white_right, codeUnits_app.
  f_equal. exact (codeUnits_white w (incl_refl w)).
Qed.

End Padding.

Lemma dropWhile_app_all p w s :
  forallb p w = true -> dropWhile p (w ++ s) = dropWhile p s.
Proof.
  induction w as [|c t IH]; simpl; [reflexivity|].
  rewrite andb_true_iff. intros [-> Ht]. auto.
Qed.

Lemma dropWhileEnd_all p w : forallb p w = true -> dropWhileEnd p w = [].
Proof.
  induction w as [|c t IH]; simpl; [reflexivity|].
  rewrite andb_true_iff. intros [-> Ht]. rewrite (IH Ht). reflexivity.
Qed.

Lemma dropWhileEnd_app_all p s w :
  forallb p w = true -> dropWhileEnd p (s ++ w) = dropWhileEnd p s.
Proof.
  intros H. induction s as [|c t IH]; simpl.
  - apply dropWhileEnd_all, H.
  - rewrite IH. reflexivity.
Qed.

Lemma trim_dropWhile_app s w :
  forallb isWhiteSpace w = true ->
  dropWhileEnd isWhiteSpace (dropWhile isWhiteSpace (s ++ w))
  = dropWhileEnd isWhiteSpace (dropWhile isWhiteSpace s).
Proof.
  intros H. induction s as [|c t IH]; simpl.
  - replace w with (w ++ []) by apply app_nil_r.
    rewrite dropWhile_app_all by exact H. reflexivity.
  - destruct (isWhiteSpace c); [exact IH|].
    change (c :: t ++ w) with ((c :: t) ++ w).
    apply dropWhileEnd_app_all, H.
Qed.

Lemma trim_padding w1 s w2 :
  forallb isWhiteSpace w1 = true -> forallb isWhiteSpace w2 = true ->
  trim (w1 ++ s ++ w2) = trim s.
Proof.
  intros H1 H2. unfold trim. rewrite dropWhile_app_all by exact H1.
  apply trim_dropWhile_app, H2.
Qed.

(** X14.  The third tier compares headers without regard to white space
    around them: padding a header with white space on either side does
    not change whether it matches a label. *)
Theorem sameHeader_ignores_padding (label h w1 w2 : jsstring) :
  forallb isWhiteSpace w1 = true -> forallb isWhiteSpace w2 = true ->
  sameHeader label (w1 ++ h ++ w2) = sameHeader label h.
Proof.
  intros H1 H2. unfold sameHeader.
  rewrite (toLowerCase_white_left w1 H1), (toLowerCase_white_right w2 H2).
  rewrite trim_padding by assumption. reflexivity.
Qed.

Lemma sameHeader_ignores_padding_witness :
  sameHeader (js "Name of the Block")
             ([9; 160]%N ++ js "NAME of the block" ++ [65279; 32]%N)
  = sameHeader (js "Name of the Block") (js "NAME of the block").
Proof.
  apply (sameHeader_ignores_padding
           (js "Name of the Block") (js "NAME of the block")
           [9; 160]%N [65279; 32]%N); reflexivity.
Defined.
